(** * balena-cli: oclif helpers and the [logs] command

    A shallow embedding of [lib/utils/oclif-utils.ts] (usage formatter,
    help-override hook, capitano usage conversion, manifest reader) and of
    the [logs] capitano command, with the properties stated about them.

    JavaScript strings are represented by [string], a character standing
    for the code unit of the same number.  The regular-expression classes
    [\s] and [[A-Z]] are given exactly on these code units; [toUpperCase]
    and [toLowerCase] are given on ASCII text (code units below 128), and
    [CommandHelp] is also embedded with [toUpperCase] as a parameter, for
    the statements that cover every argument name.  Values the code only
    passes around (numbers of a log record, stream handles) are kept
    opaque. *)

From Stdlib Require Import String Ascii List Bool ZArith.
From Stdlib Require Import DecimalString Permutation Lia.
Import ListNotations.
Open Scope string_scope.
Set Warnings "-register-all".

(* ===================================================================== *)
(** ** JavaScript strings *)

Module JsString.

Definition code (c : ascii) : nat := nat_of_ascii c.

Definition in_range (lo hi : nat) (c : ascii) : bool :=
  Nat.leb lo (code c) && Nat.leb (code c) hi.

(** [[A-Z]] *)
Definition is_upper (c : ascii) : bool := in_range 65 90 c.

(** [[a-z]] *)
Definition is_lower (c : ascii) : bool := in_range 97 122 c.

(** [\s] on code units up to 255: TAB, LF, VT, FF, CR, SPACE and
    NO-BREAK SPACE (U+00A0). *)
Definition is_space (c : ascii) : bool :=
  in_range 9 13 c || Nat.eqb (code c) 32 || Nat.eqb (code c) 160.

Definition upper_char (c : ascii) : ascii :=
  if is_lower c then ascii_of_nat (code c - 32) else c.

Definition lower_char (c : ascii) : ascii :=
  if is_upper c then ascii_of_nat (code c + 32) else c.

Fixpoint map_chars (f : ascii -> ascii) (s : string) : string :=
  match s with
  | EmptyString => EmptyString
  | String c r => String (f c) (map_chars f r)
  end.

(** [String.prototype.toUpperCase] *)
Definition toUpperCase (s : string) : string := map_chars upper_char s.

(** [String.prototype.toLowerCase] *)
Definition toLowerCase (s : string) : string := map_chars lower_char s.

(** [Array.prototype.join] on an array of strings. *)
Definition join (sep : string) (l : list string) : string :=
  String.concat sep l.

(** Truthiness of a string: only the empty string is falsy. *)
Definition truthy (s : string) : bool :=
  match s with EmptyString => false | _ => true end.

(** [String.prototype.split] with a one-character separator. *)
Fixpoint split (sep : ascii) (s : string) : list string :=
  match s with
  | EmptyString => [EmptyString]
  | String c r =>
      if Ascii.eqb c sep then EmptyString :: split sep r
      else match split sep r with
           | h :: t => String c h :: t
           | [] => [String c EmptyString]
           end
  end.

(** The character [c] does not occur in [s]. *)
Fixpoint lacks (c : ascii) (s : string) : bool :=
  match s with
  | EmptyString => true
  | String d r => negb (Ascii.eqb d c) && lacks c r
  end.

End JsString.

(* ===================================================================== *)
(** ** Outcomes of calls and of awaited promises *)

Inductive ErrorClass : Type :=
| PlainError       (* new Error(...) *)
| TypeError
| SyntaxError
| ExpectedError    (* the CLI's own class, from ../errors *)
| SystemError.     (* errors of the runtime, carrying a [code] *)

(** A thrown value: the class it was built with, its message and the
    optional [code] property that [fs] errors carry. *)
Record JsError : Type := mkJsError {
  err_class : ErrorClass;
  err_message : string;
  err_code : option string
}.

(** [new Error(msg)] *)
Definition newError (msg : string) : JsError :=
  mkJsError PlainError msg None.

(** A call either returns, throws, or (for a promise) stays pending. *)
Inductive Outcome (A : Type) : Type :=
| Resolved (a : A)
| Rejected (e : JsError)
| Pending.
Arguments Resolved {A} a.
Arguments Rejected {A} e.
Arguments Pending {A}.

(** A synchronous call either returns or throws. *)
Inductive Completion (A : Type) : Type :=
| Normal (a : A)
| Throw (e : JsError).
Arguments Normal {A} a.
Arguments Throw {A} e.

(** Awaiting (or returning from an [async] function) a synchronous result. *)
Definition settle {A : Type} (c : Completion A) : Outcome A :=
  match c with
  | Normal a => Resolved a
  | Throw e => Rejected e
  end.

(** [const x = await m; k x] *)
Definition bindO {A B : Type} (m : Outcome A) (k : A -> Outcome B)
  : Outcome B :=
  match m with
  | Resolved a => k a
  | Rejected e => Rejected e
  | Pending => Pending
  end.

(** [try { m } catch (e) { h e }] *)
Definition catchO {A : Type} (m : Outcome A) (h : JsError -> Outcome A)
  : Outcome A :=
  match m with
  | Rejected e => h e
  | _ => m
  end.

(** Truthiness of an optional boolean: [undefined] and [false] are
    falsy. *)
Definition flag (b : option bool) : bool :=
  match b with Some true => true | _ => false end.

(* ===================================================================== *)
(** ** lib/utils/oclif-utils.ts *)

Module OclifUtils.
Import JsString.

(** The part of [Config.Command['args'][0]] the formatter reads. *)
Record Arg : Type := mkArg {
  name : string;
  required : option bool;
  hidden : option bool
}.

(** [CommandHelp]'s constructor argument: [{ args?: any[] }]. *)
Record Command : Type := mkCommand {
  args : option (list Arg)
}.

(** [CommandHelp.arg] *)
Definition arg (a : Arg) : string :=
  let name := toUpperCase (name a) in
  if flag (required a) then name
  else "[" ++ name ++ "]".

(** [CommandHelp.compact]: drops the falsy entries. *)
Definition compact (array : list (option string)) : list string :=
  flat_map (fun a => match a with
                     | Some s => if truthy s then [s] else []
                     | None => []
                     end) array.

(** [CommandHelp.defaultUsage] *)
Definition defaultUsage (command : Command) : string :=
  join " "
    (compact
       [ Some (join " "
                 (map arg
                    (filter (fun a => negb (flag (hidden a)))
                       (match args command with
                        | Some l => l
                        | None => []
                        end)))) ]).

(* ------------------------------------------------------------------- *)
(** *** CustomMain *)

(** [Array.prototype.includes] on strings, with a possibly undefined
    needle ([this.argv[0]] of an empty [argv]). *)
Definition includes (l : list string) (x : option string) : bool :=
  match x with
  | Some s => existsb (String.eqb s) l
  | None => false
  end.

(** What one evaluation of the hook did: the value returned and whether
    the framework's [Main._helpOverride] was consulted. *)
Record HookRun : Type := mkHookRun {
  returned : bool;
  deferred : bool
}.

Section CustomMain.
(** [super._helpOverride()], a function of the instance's [argv]. *)
Variable super_helpOverride : list string -> bool.

(** [CustomMain._helpOverride] *)
Definition _helpOverride (argv : list string) : HookRun :=
  if includes ["-v"; "--version"; "version"] (nth_error argv 0)
  then mkHookRun false false
  else mkHookRun (super_helpOverride argv) true.
End CustomMain.

(* ------------------------------------------------------------------- *)
(** *** capitanoizeOclifUsage *)

Inductive Usage : Type :=
| UsageUndefined
| UsageString (s : string)
| UsageArray (l : list string).

(** [(oclifUsage || '').toString()] *)
Definition usageToString (u : Usage) : string :=
  match u with
  | UsageUndefined => ""
  | UsageString s => s
  | UsageArray l => join "," l
  end.

(** [(?=(\s|$))]: the rest is empty or starts with white space. *)
Definition lookahead (rest : string) : bool :=
  match rest with
  | EmptyString => true
  | String c _ => is_space c
  end.

(** [(?<=\s)]: the preceding character exists and is white space. *)
Definition lookbehind (prev : option ascii) : bool :=
  match prev with
  | Some c => is_space c
  | None => false
  end.

(** Length of the match of [[A-Z]+(?=(\s|$))] at the start of [s]:
    the quantifier is greedy, shorter runs are tried on backtracking. *)
Fixpoint match_len (s : string) : option nat :=
  match s with
  | EmptyString => None
  | String c rest =>
      if is_upper c then
        match match_len rest with
        | Some n => Some (S n)
        | None => if lookahead rest then Some 1 else None
        end
      else None
  end.

Definition close (pending : nat) (s : string) : string :=
  match pending with
  | O => ">" ++ s
  | S _ => s
  end.

(** [.replace(/(?<=\s)[A-Z]+(?=(\s|$))/g, (match) => `<${match}>`)]:
    a left-to-right scan; [prev] is the character before the current
    position and [pending] the number of characters of the current match
    still to be copied. *)
Fixpoint replaceMatches (prev : option ascii) (pending : nat) (s : string)
  : string :=
  match s with
  | EmptyString => EmptyString
  | String c rest =>
      match pending with
      | S p => String c (close p (replaceMatches (Some c) p rest))
      | O =>
          match (if lookbehind prev then match_len s else None) with
          | Some (S p) =>
              "<" ++ String c (close p (replaceMatches (Some c) p rest))
          | _ => String c (replaceMatches (Some c) 0 rest)
          end
      end
  end.

(** [capitanoizeOclifUsage] *)
Definition capitanoizeOclifUsage (oclifUsage : Usage) : string :=
  toLowerCase (replaceMatches None 0 (usageToString oclifUsage)).

(* ------------------------------------------------------------------- *)
(** *** The oclif manifest *)

(** Values produced by [JSON.parse].  An object is the list of its own
    properties in insertion order. *)
Inductive Json : Type :=
| JNull
| JBool (b : bool)
| JNumber (n : Z)
| JString (s : string)
| JArray (items : list Json)
| JObject (props : list (string * Json)).

(** Own-property lookup; [None] is [undefined]. *)
Fixpoint lookup (key : string) (props : list (string * Json))
  : option Json :=
  match props with
  | [] => None
  | (k, v) :: rest => if String.eqb k key then Some v else lookup key rest
  end.

(** [manifest.commands]: reading a property of [null] throws; primitives,
    arrays and objects without the property give [undefined]. *)
Definition read_commands (manifest : Json) : Completion (option Json) :=
  match manifest with
  | JNull =>
      Throw (mkJsError TypeError
               "Cannot read properties of null (reading 'commands')" None)
  | JObject props => Normal (lookup "commands" props)
  | _ => Normal None
  end.

(** [x == null] *)
Definition is_nullish (x : option Json) : bool :=
  match x with
  | None | Some JNull => true
  | _ => false
  end.

Definition string_of_N (n : N) : string :=
  NilEmpty.string_of_uint (N.to_uint n).

(** An array index is a canonical numeric string below [2^32 - 1]. *)
Definition array_index (key : string) : option N :=
  match NilEmpty.uint_of_string key with
  | Some u =>
      let n := N.of_uint u in
      if String.eqb (string_of_N n) key && N.ltb n 4294967295
      then Some n else None
  | None => None
  end.

Fixpoint insert_sorted (n : N) (l : list N) : list N :=
  match l with
  | [] => [n]
  | m :: rest => if N.leb n m then n :: l else m :: insert_sorted n rest
  end.

Definition sort_indices (l : list N) : list N :=
  fold_right insert_sorted [] l.

Definition index_keys (keys : list string) : list N :=
  flat_map (fun k => match array_index k with
                     | Some n => [n]
                     | None => []
                     end) keys.

Definition is_index (k : string) : bool :=
  match array_index k with Some _ => true | None => false end.

(** Own keys in the order of OrdinaryOwnPropertyKeys: array indices
    ascending, then the other keys in insertion order. *)
Definition own_keys (keys : list string) : list string :=
  map string_of_N (sort_indices (index_keys keys))
  ++ filter (fun k => negb (is_index k)) keys.

Definition indices (len : nat) : list string :=
  map (fun i => string_of_N (N.of_nat i)) (seq 0 len).

(** [Object.keys]; [None] is [undefined]. *)
Definition Object_keys (v : option Json) : Completion (list string) :=
  match v with
  | None | Some JNull =>
      Throw (mkJsError TypeError
               "Cannot convert undefined or null to object" None)
  | Some (JBool _) | Some (JNumber _) => Normal []
  | Some (JString s) => Normal (indices (String.length s))
  | Some (JArray items) => Normal (indices (List.length items))
  | Some (JObject props) => Normal (own_keys (map fst props))
  end.

(** [e.code === 'ENOENT'] *)
Definition has_code (e : JsError) (c : string) : bool :=
  match err_code e with
  | Some k => String.eqb k c
  | None => false
  end.

Definition manifest_not_found : JsError :=
  newError "Oclif manifest not found.".

Definition commands_missing : JsError :=
  newError "Commands second not found in manifest.".

Section Manifest.
(** [fs.promises.readFile(path, encoding)] *)
Variable readFile : string -> string -> Outcome string.
(** [JSON.parse] *)
Variable JSON_parse : string -> Completion Json.

(** [getCommandsFromManifest] *)
Definition getCommandsFromManifest : Outcome (option Json) :=
  bindO
    (catchO
       (bindO (readFile "./oclif.manifest.json" "utf8")
          (fun text => settle (JSON_parse text)))
       (fun e =>
          if has_code e "ENOENT" then Rejected manifest_not_found
          else Rejected e))
    (fun manifest => settle (read_commands manifest)).

(** [getCommandIdsFromManifest] *)
Definition getCommandIdsFromManifest : Outcome (list string) :=
  bindO getCommandsFromManifest
    (fun commands =>
       if is_nullish commands then Rejected commands_missing
       else settle (Object_keys commands)).
End Manifest.

End OclifUtils.


(* ===================================================================== *)
(** ** The [logs] command *)

Module Logs.

(** [LogMessage] of the SDK, as far as the command looks at it. *)
Record LogMessage : Type := mkLogMessage {
  message : string;
  isSystem : bool;
  timestamp : Z;
  serviceId : option Z
}.

(** What [displayLogObject] receives: the line, with a [serviceName]
    property when the command added one. *)
Record LogObject : Type := mkLogObject {
  serviceName : option string;
  line : LogMessage
}.

Record Params : Type := mkParams {
  uuidOrDevice : string
}.

(** [service?: [string] | string] *)
Inductive ServiceOption : Type :=
| OneService (s : string)
| ServiceList (l : list string).

Record Options : Type := mkOptions {
  tail : option bool;
  service : option ServiceOption;
  system : option bool
}.

(** The two events of the cloud log stream the command listens to. *)
Inductive StreamEvent : Type :=
| Line (l : LogMessage)
| StreamError (e : JsError).

(** A subscribed stream, given by the events it emits, in order, while the
    command waits on it. *)
Definition LogStream : Type := list StreamEvent.

(** State of the promise built by [new Promise(executor)]. *)
Inductive PromiseState : Type :=
| Unsettled
| Fulfilled
| Failed (e : JsError).

(** The [reject] function of a promise: only the first settlement counts. *)
Definition reject (e : JsError) (p : PromiseState) : PromiseState :=
  match p with
  | Unsettled => Failed e
  | _ => p
  end.

Section Action.
(** State of everything outside the command: devices, cloud, terminal. *)
Variable World : Type.
(** The handle returned by [DeviceAPI.getLogStream]. *)
Variable DeviceLogStream : Type.

(** Calls the command makes to its collaborators, with their arguments. *)
Inductive Call : Type :=
| CallLogDebug (msg : string)
| CallPing (address : string)
| CallGetLogStream (address : string)
| CallDisplayDeviceLogs (logStream : DeviceLogStream) (system : bool)
    (services : option (list string))
| CallCheckLoggedIn
| CallSubscribe (id : string) (count : Z)
| CallHistory (id : string)
| CallServiceIdToName (sid : option Z)
| CallDisplayLogObject (obj : LogObject) (system : bool)
    (services : option (list string)).

(** The modules the command imports.  Each operation answers from the
    current world and may change it. *)
Record Collaborators : Type := mkCollaborators {
  normalizeUuidProp : Params -> Params;
  validateIPAddress : string -> bool;
  validateDotLocalUrl : string -> bool;
  logDebug : string -> World -> World;
  ping : string -> World -> Outcome unit * World;
  getLogStream : string -> World -> Outcome DeviceLogStream * World;
  displayDeviceLogs :
    DeviceLogStream -> bool -> option (list string) ->
    World -> Outcome unit * World;
  checkLoggedIn : World -> Outcome unit * World;
  subscribe : string -> Z -> World -> Outcome LogStream * World;
  history : string -> World -> Outcome (list LogMessage) * World;
  serviceIdToName : option Z -> World -> Outcome (option string) * World;
  displayLogObject :
    LogObject -> bool -> option (list string) ->
    World -> Completion unit * World
}.

Variable env : Collaborators.

(** A run: the outcome, the world it leaves and the calls it made. *)
Definition M (A : Type) : Type := World -> Outcome A * World * list Call.

Definition ret {A : Type} (a : A) : M A := fun w => (Resolved a, w, []).

Definition throw {A : Type} (e : JsError) : M A :=
  fun w => (Rejected e, w, []).

Definition bind {A B : Type} (m : M A) (k : A -> M B) : M B :=
  fun w =>
    match m w with
    | (Resolved a, w1, t1) =>
        let '(o, w2, t2) := k a w1 in (o, w2, (t1 ++ t2)%list)
    | (Rejected e, w1, t1) => (Rejected e, w1, t1)
    | (Pending, w1, t1) => (Pending, w1, t1)
    end.

(** [try { m } catch (e) { h e }] *)
Definition catch {A : Type} (m : M A) (h : JsError -> M A) : M A :=
  fun w =>
    match m w with
    | (Rejected e, w1, t1) =>
        let '(o, w2, t2) := h e w1 in (o, w2, (t1 ++ t2)%list)
    | r => r
    end.

(** An asynchronous call to a collaborator, awaited. *)
Definition perform {A : Type} (c : Call) (f : World -> Outcome A * World)
  : M A :=
  fun w => let (o, w1) := f w in (o, w1, [c]).

(** A synchronous call to a collaborator. *)
Definition invoke {A : Type} (c : Call) (f : World -> Completion A * World)
  : M A :=
  fun w => let (o, w1) := f w in (settle o, w1, [c]).

(** A call whose promise nobody awaits: its effects happen, its outcome
    is dropped. *)
Definition detach {A : Type} (m : M A) : M unit :=
  fun w => let '(_, w1, t1) := m w in (Resolved tt, w1, t1).

Notation "x <- m ;; k" := (bind m (fun x => k))
  (at level 61, m at next level, right associativity).
Notation "m ;;; k" := (bind m (fun _ => k))
  (at level 61, right associativity).

(** [for (const x of l) { await body(x); }] *)
Fixpoint forOf {A : Type} (l : list A) (body : A -> M unit) : M unit :=
  match l with
  | [] => ret tt
  | x :: rest => body x ;;; forOf rest body
  end.

(** [servicesToDisplay] *)
Definition servicesToDisplay (options : Options) : option (list string) :=
  match service options with
  | Some (ServiceList l) => Some l
  | Some (OneService s) => Some [s]
  | None => None
  end.

(** [displayCloudLog] *)
Definition displayCloudLog (options : Options) (line : LogMessage)
  : M unit :=
  if negb (isSystem line) then
    resolved <- perform (CallServiceIdToName (serviceId line))
                  (serviceIdToName env (serviceId line)) ;;
    let serviceName :=
      match resolved with
      | Some n => n
      | None => "Unknown service"
      end in
    let obj := mkLogObject (Some serviceName) line in
    invoke
      (CallDisplayLogObject obj (flag (system options))
         (servicesToDisplay options))
      (displayLogObject env obj (flag (system options))
         (servicesToDisplay options))
  else
    let obj := mkLogObject None line in
    invoke
      (CallDisplayLogObject obj (flag (system options))
         (servicesToDisplay options))
      (displayLogObject env obj (flag (system options))
         (servicesToDisplay options)).

(** The stream emitting its events to the listeners the executor
    registered: ['line'] runs [displayCloudLog] without awaiting it,
    ['error'] calls the promise's [reject]. *)
Fixpoint emit (options : Options) (events : LogStream) (p : PromiseState)
  : M PromiseState :=
  match events with
  | [] => ret p
  | Line l :: rest =>
      detach (displayCloudLog options l) ;;; emit options rest p
  | StreamError e :: rest => emit options rest (reject e p)
  end.

(** [await] of a promise in the given state. *)
Definition await (p : PromiseState) : M unit :=
  match p with
  | Unsettled => fun w => (Pending, w, [])
  | Fulfilled => ret tt
  | Failed e => throw e
  end.

Definition cannot_access (address : string) : JsError :=
  mkJsError ExpectedError
    ("Cannot access local mode device at address " ++ address) None.

(** [logger.logDebug(msg)] *)
Definition debug (msg : string) : M unit :=
  fun w => (Resolved tt, logDebug env msg w, [CallLogDebug msg]).

(** [logs.action].  Loading the imported modules and building the SDK
    handle, the logger and the [DeviceAPI] object (which only binds the
    address) are taken to succeed; every other call goes through [env]. *)
Definition action (params : Params) (options : Options) : M unit :=
  let params := normalizeUuidProp env params in
  if validateIPAddress env (uuidOrDevice params)
     || validateDotLocalUrl env (uuidOrDevice params)
  then
    debug "Checking we can access device" ;;;
    catch
      (perform (CallPing (uuidOrDevice params))
         (ping env (uuidOrDevice params)))
      (fun _ => throw (cannot_access (uuidOrDevice params))) ;;;
    logStream <- perform (CallGetLogStream (uuidOrDevice params))
                   (getLogStream env (uuidOrDevice params)) ;;
    perform
      (CallDisplayDeviceLogs logStream (flag (system options))
         (servicesToDisplay options))
      (displayDeviceLogs env logStream (flag (system options))
         (servicesToDisplay options))
  else
    perform CallCheckLoggedIn (checkLoggedIn env) ;;;
    if flag (tail options) then
      logStream <- perform (CallSubscribe (uuidOrDevice params) 100%Z)
                     (subscribe env (uuidOrDevice params) 100%Z) ;;
      p <- emit options logStream Unsettled ;;
      await p
    else
      logMessages <- perform (CallHistory (uuidOrDevice params))
                       (history env (uuidOrDevice params)) ;;
      forOf logMessages (displayCloudLog options).
(** *** Reading a run *)

(** Calls of the cloud path. *)
Definition is_cloud_call (c : Call) : bool :=
  match c with
  | CallCheckLoggedIn | CallSubscribe _ _ | CallHistory _
  | CallServiceIdToName _ | CallDisplayLogObject _ _ _ => true
  | _ => false
  end.

(** The device ids whose history was fetched, in call order. *)
Definition history_calls (calls : list Call) : list string :=
  flat_map (fun c => match c with
                     | CallHistory id => [id]
                     | _ => []
                     end) calls.

(** The objects handed to [displayLogObject], in call order. *)
Definition displayed (calls : list Call) : list LogObject :=
  flat_map (fun c => match c with
                     | CallDisplayLogObject obj _ _ => [obj]
                     | _ => []
                     end) calls.

(** The service ids handed to [serviceIdToName], in call order. *)
Definition resolutions (calls : list Call) : list (option Z) :=
  flat_map (fun c => match c with
                     | CallServiceIdToName sid => [sid]
                     | _ => []
                     end) calls.

End Action.

Arguments normalizeUuidProp {World DeviceLogStream} c _.
Arguments validateIPAddress {World DeviceLogStream} c _.
Arguments validateDotLocalUrl {World DeviceLogStream} c _.
Arguments logDebug {World DeviceLogStream} c _ _.
Arguments ping {World DeviceLogStream} c _ _.
Arguments getLogStream {World DeviceLogStream} c _ _.
Arguments displayDeviceLogs {World DeviceLogStream} c _ _ _ _.
Arguments checkLoggedIn {World DeviceLogStream} c _.
Arguments subscribe {World DeviceLogStream} c _ _ _.
Arguments history {World DeviceLogStream} c _ _.
Arguments serviceIdToName {World DeviceLogStream} c _ _.
Arguments displayLogObject {World DeviceLogStream} c _ _ _ _.

Arguments CallLogDebug {DeviceLogStream} msg.
Arguments CallPing {DeviceLogStream} address.
Arguments CallGetLogStream {DeviceLogStream} address.
Arguments CallDisplayDeviceLogs {DeviceLogStream} logStream system services.
Arguments CallCheckLoggedIn {DeviceLogStream}.
Arguments CallSubscribe {DeviceLogStream} id count.
Arguments CallHistory {DeviceLogStream} id.
Arguments CallServiceIdToName {DeviceLogStream} sid.
Arguments CallDisplayLogObject {DeviceLogStream} obj system services.
Arguments ret {World DeviceLogStream A} a _.
Arguments throw {World DeviceLogStream A} e _.
Arguments bind {World DeviceLogStream A B} m k _.
Arguments catch {World DeviceLogStream A} m h _.
Arguments perform {World DeviceLogStream A} c f _.
Arguments invoke {World DeviceLogStream A} c f _.
Arguments detach {World DeviceLogStream A} m _.
Arguments debug {World DeviceLogStream} env msg _.
Arguments forOf {World DeviceLogStream A} l body _.
Arguments await {World DeviceLogStream} p _.
Arguments displayCloudLog {World DeviceLogStream} env options line _.
Arguments emit {World DeviceLogStream} env options events p _.
Arguments action {World DeviceLogStream} env params options _.
Arguments is_cloud_call {DeviceLogStream} c.
Arguments history_calls {DeviceLogStream} calls.
Arguments displayed {DeviceLogStream} calls.
Arguments resolutions {DeviceLogStream} calls.

End Logs.

(* ===================================================================== *)
(** ** [CommandHelp], with the uppercase mapping as a parameter *)

Module CommandHelp.
Import JsString OclifUtils.

Section Uppercase.
(** [String.prototype.toUpperCase] *)
Variable toUpperCase : string -> string.

(** [CommandHelp.arg] *)
Definition arg (a : Arg) : string :=
  let name := toUpperCase (name a) in
  if flag (required a) then name
  else "[" ++ name ++ "]".

(** [CommandHelp.defaultUsage] *)
Definition defaultUsage (command : Command) : string :=
  join " "
    (compact
       [ Some (join " "
                 (map arg
                    (filter (fun a => negb (flag (hidden a)))
                       (match args command with
                        | Some l => l
                        | None => []
                        end)))) ]).
End Uppercase.

End CommandHelp.

(* ===================================================================== *)
(** ** Sample inputs *)

Module Samples.
Import OclifUtils.

(** The error of [fs.promises.readFile] on a missing file. *)
Definition enoent : JsError :=
  mkJsError SystemError
    "ENOENT: no such file or directory, open './oclif.manifest.json'"
    (Some "ENOENT").

(** A disk without the manifest. *)
Definition readFile_absent (path encoding : string) : Outcome string :=
  Rejected enoent.

(** A disk whose only file is the manifest, with the given text. *)
Definition readFile_of (text path encoding : string) : Outcome string :=
  if String.eqb path "./oclif.manifest.json" then Resolved text
  else Rejected enoent.

(** A parser that knows three documents:
    [{ commands: null }], [{ version: '1.0' }] and
    [{ version: '1.0', commands: { 'env:add': {}, 'logs': {} } }]. *)
Definition parse_sample (text : string) : Completion Json :=
  if String.eqb text "null-commands" then
    Normal (JObject [("commands", JNull)])
  else if String.eqb text "no-commands" then
    Normal (JObject [("version", JString "1.0")])
  else if String.eqb text "two-commands" then
    Normal (JObject [("version", JString "1.0");
                     ("commands", JObject [("env:add", JObject []);
                                           ("logs", JObject [])])])
  else Throw (mkJsError SyntaxError "Unexpected token in JSON" None).

End Samples.

Module LogSamples.
Import Logs.

Definition started : LogMessage :=
  mkLogMessage "Started service 'main'" true 1000 (Some 7%Z).

Definition hello : LogMessage :=
  mkLogMessage "hello" false 1001 (Some 7%Z).

Definition orphan : LogMessage :=
  mkLogMessage "bye" false 1002 (Some 9%Z).

Definition killed : LogMessage :=
  mkLogMessage "Killed service 'aux'" true 1003 (Some 9%Z).

Definition unreachable : JsError :=
  mkJsError SystemError "connect EHOSTUNREACH" (Some "EHOSTUNREACH").

Definition broken : JsError :=
  mkJsError PlainError "socket hang up" (Some "ECONNRESET").

(** A world that counts the lines written to the terminal.  One local
    device, [192.168.0.31], which does not answer; one cloud device whose
    service 7 is named [main]; its live stream breaks after two lines. *)
Definition sample_env : Collaborators nat unit :=
  {| normalizeUuidProp := fun p => p;
     validateIPAddress := fun s => String.eqb s "192.168.0.31";
     validateDotLocalUrl := fun s => String.eqb s "23c73a1.local";
     logDebug := fun _ w => w;
     ping := fun _ w => (Rejected unreachable, w);
     getLogStream := fun _ w => (Resolved tt, w);
     displayDeviceLogs := fun _ _ _ w => (Pending, w);
     checkLoggedIn := fun w => (Resolved tt, w);
     subscribe := fun _ _ w =>
       (Resolved [Line started; Line hello; StreamError broken; Line orphan],
        w);
     history := fun _ w => (Resolved [started; hello; orphan], w);
     serviceIdToName := fun sid w =>
       (Resolved (match sid with
                  | Some 7%Z => Some "main"
                  | _ => None
                  end), w);
     displayLogObject := fun _ _ _ w => (Normal tt, S w) |}.

Definition no_options : Options := mkOptions None None None.

Definition tail_options : Options := mkOptions (Some true) None None.

End LogSamples.

(* ===================================================================== *)
(** ** Predicates and readings used by the further properties *)

Module Reading.
Import JsString OclifUtils.

(** Every character of [s] satisfies [p]. *)
Fixpoint all_chars (p : ascii -> bool) (s : string) : bool :=
  match s with
  | EmptyString => true
  | String c r => p c && all_chars p r
  end.

(** The characters of [s] that satisfy [p], in order. *)
Fixpoint keep_chars (p : ascii -> bool) (s : string) : string :=
  match s with
  | EmptyString => EmptyString
  | String c r => if p c then String c (keep_chars p r) else keep_chars p r
  end.

(** Neither [<] nor [>]. *)
Definition not_angle (c : ascii) : bool :=
  negb (Ascii.eqb c "<" || Ascii.eqb c ">").

Definition is_letter (c : ascii) : bool := is_upper c || is_lower c.

(** A code unit below 128. *)
Definition is_ascii (c : ascii) : bool := Nat.ltb (code c) 128.

(** A non-empty string of ASCII letters. *)
Definition is_word (s : string) : bool :=
  truthy s && all_chars is_letter s.

(** The capitano rendering of an argument: [<name>] when required,
    [[name]] when optional. *)
Definition capitano_arg (a : Arg) : string :=
  if flag (required a) then "<" ++ toLowerCase (name a) ++ ">"
  else "[" ++ toLowerCase (name a) ++ "]".

(** The arguments [defaultUsage] shows. *)
Definition visible (l : list Arg) : list Arg :=
  filter (fun a => negb (flag (hidden a))) l.

End Reading.

Module LogReading.
Import Logs.

(** The first ['error'] event of a stream, if it has one. *)
Fixpoint first_error (events : LogStream) : option JsError :=
  match events with
  | [] => None
  | StreamError e :: _ => Some e
  | Line _ :: rest => first_error rest
  end.

(** The log messages of the ['line'] events of a stream, in order. *)
Definition lines (events : LogStream) : list LogMessage :=
  flat_map (fun ev => match ev with
                      | Line l => [l]
                      | StreamError _ => []
                      end) events.

(** The display step succeeds for each message of the list in turn, the
    world being the one the previous step left. *)
Fixpoint displays_succeed {W D : Type} (env : Collaborators W D)
    (options : Options) (msgs : list LogMessage) (w : W) : Prop :=
  match msgs with
  | [] => True
  | l :: rest =>
      exists w1 calls,
        displayCloudLog env options l w = (Resolved tt, w1, calls) /\
        displays_succeed env options rest w1
  end.

(** A call of the per-line display step: a name lookup, or a call of the
    formatter with the filters of [options]. *)
Definition display_step_call {D : Type} (options : Options) (c : Call D)
  : Prop :=
  match c with
  | CallServiceIdToName _ => True
  | CallDisplayLogObject _ sys services =>
      sys = flag (system options) /\ services = servicesToDisplay options
  | _ => False
  end.

(** Every display call carries the filters of [options]. *)
Definition carries_filters {D : Type} (options : Options) (c : Call D)
  : Prop :=
  match c with
  | CallDisplayLogObject _ sys services
  | CallDisplayDeviceLogs _ sys services =>
      sys = flag (system options) /\ services = servicesToDisplay options
  | _ => True
  end.

(** A device that answers the ping, and a cloud whose name lookup fails
    for service 9. *)
Definition flaky_env : Collaborators nat unit :=
  {| normalizeUuidProp := fun p => p;
     validateIPAddress := fun s => String.eqb s "192.168.0.31";
     validateDotLocalUrl := fun s => String.eqb s "23c73a1.local";
     logDebug := fun _ w => w;
     ping := fun _ w => (Resolved tt, w);
     getLogStream := fun _ w => (Rejected LogSamples.broken, w);
     displayDeviceLogs := fun _ _ _ w => (Pending, w);
     checkLoggedIn := fun w => (Resolved tt, w);
     subscribe := fun _ _ w => (Rejected LogSamples.broken, w);
     history := fun _ w =>
       (Resolved [LogSamples.started; LogSamples.hello; LogSamples.orphan;
                  LogSamples.killed], w);
     serviceIdToName := fun sid w =>
       (match sid with
        | Some 7%Z => Resolved (Some "main")
        | _ => Rejected LogSamples.broken
        end, w);
     displayLogObject := fun _ _ _ w => (Normal tt, S w) |}.

(** A cloud that refuses the login check. *)
Definition logged_out : JsError :=
  mkJsError ExpectedError "Login required" None.

Definition logged_out_env : Collaborators nat unit :=
  {| normalizeUuidProp := fun p => p;
     validateIPAddress := fun s => String.eqb s "192.168.0.31";
     validateDotLocalUrl := fun s => String.eqb s "23c73a1.local";
     logDebug := fun _ w => w;
     ping := fun _ w => (Resolved tt, w);
     getLogStream := fun _ w => (Resolved tt, w);
     displayDeviceLogs := fun _ _ _ w => (Resolved tt, S w);
     checkLoggedIn := fun w => (Rejected logged_out, w);
     subscribe := fun _ _ w => (Resolved [], w);
     history := fun _ w => (Resolved [], w);
     serviceIdToName := fun _ w => (Resolved None, w);
     displayLogObject := fun _ _ _ w => (Normal tt, S w) |}.

(** A parser that also knows the document [null]. *)
Definition parse_with_null (text : string) : Completion OclifUtils.Json :=
  if String.eqb text "null" then Normal OclifUtils.JNull
  else Samples.parse_sample text.

End LogReading.

(* ===================================================================== *)
(** * Properties *)

Import JsString OclifUtils.

(** ** Strings *)

Lemma split_nonempty (sep : ascii) (s : string) : split sep s <> [].
Proof.
  destruct s as [|c r]; simpl; [discriminate|].
  destruct (Ascii.eqb c sep); [discriminate|].
  destruct (split sep r); discriminate.
Qed.

Lemma split_lacks (sep : ascii) (s : string) :
  lacks sep s = true -> split sep s = [s].
Proof.
  induction s as [|c r IH]; simpl; intros H; [reflexivity|].
  apply andb_true_iff in H as [Hc Hr].
  apply negb_true_iff in Hc. rewrite Hc, (IH Hr). reflexivity.
Qed.

Lemma split_append_sep (sep : ascii) (s r : string) :
  lacks sep s = true ->
  split sep (s ++ String sep r) = s :: split sep r.
Proof.
  induction s as [|c t IH]; simpl; intros H.
  - now rewrite Ascii.eqb_refl.
  - apply andb_true_iff in H as [Hc Ht].
    apply negb_true_iff in Hc. rewrite Hc, (IH Ht). reflexivity.
Qed.

Lemma split_join (sep : ascii) (l : list string) :
  l <> [] ->
  Forall (fun s => lacks sep s = true) l ->
  split sep (join (String sep EmptyString) l) = l.
Proof.
  unfold join.
  induction l as [|s rest IH]; intros Hne Hall; [congruence|].
  inversion Hall as [|? ? Hs Hrest]; subst.
  destruct rest as [|s' rest'].
  - simpl. now apply split_lacks.
  - change (String.concat (String sep "") (s :: s' :: rest'))
      with (s ++ String sep (String.concat (String sep "") (s' :: rest'))).
    rewrite split_append_sep by assumption.
    f_equal. apply IH; [discriminate | assumption].
Qed.

(** ** CommandHelp *)

Lemma compact_single (s : string) : join " " (compact [Some s]) = s.
Proof.
  destruct s; reflexivity.
Qed.

(** The arguments [defaultUsage] reads: [this.command.args || []]. *)
Lemma defaultUsage_unfold (command : Command) :
  defaultUsage command =
  join " " (map arg (filter (fun a => negb (flag (hidden a)))
                       (match args command with
                        | Some l => l
                        | None => []
                        end))).
Proof.
  unfold defaultUsage. apply compact_single.
Qed.

(** C1 (as stated, refuted): a required argument [file] and an optional
    argument [app] are rendered [FILE [APP]], without angle brackets, and
    not [<FILE> [<APP>]]. *)
Lemma defaultUsage_has_no_angle_brackets :
  let command :=
    mkCommand (Some [mkArg "file" (Some true) None; mkArg "app" None None]) in
  defaultUsage command = "FILE [APP]" /\
  defaultUsage command <> "<FILE> [<APP>]".
Proof.
  split; [reflexivity | discriminate].
Qed.

(** The embedding with the ASCII [toUpperCase] is the instance of the
    parametric one. *)
Lemma defaultUsage_instance (command : Command) :
  defaultUsage command = CommandHelp.defaultUsage toUpperCase command.
Proof.
  reflexivity.
Qed.

(** C1 (amended): whatever the names are and whatever [toUpperCase] does
    to them, [defaultUsage] is the single-space join of the non-hidden
    arguments in input order, a required one rendered as its uppercased
    name [NAME] and an optional one as [[NAME]], without angle brackets;
    hidden arguments contribute nothing, and with no visible argument the
    output is empty.  When no rendering contains a space, splitting the
    output at the spaces gives back exactly the renderings. *)
Theorem defaultUsage_renders_visible_args
    (toUpperCase : string -> string) (command : Command) :
  let l := match args command with Some l => l | None => [] end in
  let shown := filter (fun a => negb (flag (hidden a))) l in
  let render := fun a =>
    if flag (required a) then toUpperCase (name a)
    else "[" ++ toUpperCase (name a) ++ "]" in
  CommandHelp.defaultUsage toUpperCase command
  = join " " (map render shown) /\
  (shown = [] -> CommandHelp.defaultUsage toUpperCase command = "") /\
  (shown <> [] ->
   Forall (fun a => lacks " " (render a) = true) shown ->
   split " " (CommandHelp.defaultUsage toUpperCase command)
   = map render shown).
Proof.
  intros l shown render.
  assert (Hjoin : CommandHelp.defaultUsage toUpperCase command
                  = join " " (map render shown)).
  { unfold CommandHelp.defaultUsage. fold l. fold shown.
    apply compact_single. }
  rewrite Hjoin. split; [reflexivity|]. split.
  - intros ->. reflexivity.
  - intros Hne Hspace. apply split_join.
    + destruct shown; [congruence | discriminate].
    + apply Forall_forall. intros s Hs.
      apply in_map_iff in Hs as [a [<- Ha]].
      exact (proj1 (Forall_forall _ _) Hspace a Ha).
Qed.

Lemma defaultUsage_renders_visible_args_witness :
  let command :=
    mkCommand (Some [mkArg "file" (Some true) None;
                     mkArg "secret key" None (Some true);
                     mkArg "app" (Some false) None]) in
  CommandHelp.defaultUsage toUpperCase command = "FILE [APP]" /\
  split " " (CommandHelp.defaultUsage toUpperCase command)
  = ["FILE"; "[APP]"].
Proof.
  intros command.
  destruct (defaultUsage_renders_visible_args toUpperCase command)
    as [Hjoin [_ Hsplit]].
  split.
  - exact Hjoin.
  - apply Hsplit; [discriminate | repeat constructor].
Defined.

(** ** capitanoizeOclifUsage *)

(** C4 (as stated, refuted): on ["ENV ADD NAME [VALUE]"] the result is not
    ["env add <name> [value]"]. *)
Lemma capitanoize_uppercase_command_words :
  capitanoizeOclifUsage (UsageString "ENV ADD NAME [VALUE]")
  <> "env add <name> [value]".
Proof.
  discriminate.
Qed.

(** C4 (amended): on ["ENV ADD NAME [VALUE]"] every bare uppercase token
    that follows white space is wrapped, [ADD] included, giving
    ["env <add> <name> [value]"]; the string ["env add <name> [value]"] is
    the result for the input ["env add NAME [VALUE]"] of the function's
    own documentation. *)
Theorem capitanoize_examples :
  capitanoizeOclifUsage (UsageString "ENV ADD NAME [VALUE]")
  = "env <add> <name> [value]" /\
  capitanoizeOclifUsage (UsageString "env add NAME [VALUE]")
  = "env add <name> [value]".
Proof.
  split; reflexivity.
Qed.

(** ** CustomMain *)

Lemma includes_spec (l : list string) (x : option string) :
  includes l x = true <-> exists t, x = Some t /\ In t l.
Proof.
  unfold includes. destruct x as [s|].
  - rewrite existsb_exists. split.
    + intros [y [Hy Heq]]. apply String.eqb_eq in Heq. subst y.
      exists s. now split.
    + intros [t [Ht Hin]]. injection Ht as <-.
      exists s. split; [assumption | apply String.eqb_refl].
  - split; [discriminate | intros [t [Ht _]]; discriminate].
Qed.

(** C9: the hook returns [false] without consulting the framework's
    [_helpOverride] exactly when [argv[0]] is one of [-v], [--version],
    [version]; for every other [argv] it consults the framework and
    returns what the framework returns. *)
Theorem helpOverride_skips_exactly_on_version_tokens
    (super_helpOverride : list string -> bool) (argv : list string) :
  let run := _helpOverride super_helpOverride argv in
  let version_request :=
    exists t, nth_error argv 0 = Some t /\
              In t ["-v"; "--version"; "version"] in
  ((returned run = false /\ deferred run = false) <-> version_request) /\
  (~ version_request ->
   returned run = super_helpOverride argv /\ deferred run = true).
Proof.
  intros run version_request. subst run. unfold _helpOverride.
  destruct (includes ["-v"; "--version"; "version"] (nth_error argv 0))
    eqn:Hinc.
  - apply includes_spec in Hinc. split.
    + split; [intros _; exact Hinc | intros _; now split].
    + intros Hn. contradiction.
  - assert (Hn : ~ version_request).
    { intros Hv. apply includes_spec in Hv. congruence. }
    split.
    + split; [intros [_ Hd]; discriminate | intros Hv; contradiction].
    + intros _. now split.
Qed.

(** ** The manifest *)

Lemma insert_sorted_perm (n : N) (l : list N) :
  Permutation (insert_sorted n l) (n :: l).
Proof.
  induction l as [|m rest IH]; simpl; [reflexivity|].
  destruct (N.leb n m); [reflexivity|].
  rewrite IH. apply perm_swap.
Qed.

Lemma sort_indices_perm (l : list N) : Permutation (sort_indices l) l.
Proof.
  induction l as [|n rest IH]; simpl; [reflexivity|].
  rewrite insert_sorted_perm. now constructor.
Qed.

Lemma array_index_canonical (k : string) (n : N) :
  array_index k = Some n -> string_of_N n = k.
Proof.
  unfold array_index.
  destruct (NilEmpty.uint_of_string k) as [u|]; [|discriminate].
  destruct (String.eqb (string_of_N (N.of_uint u)) k) eqn:Heq; simpl;
    [|discriminate].
  destruct (N.ltb (N.of_uint u) 4294967295); [|discriminate].
  intros H. injection H as <-. now apply String.eqb_eq.
Qed.

Lemma index_keys_names (keys : list string) :
  map string_of_N (index_keys keys) = filter is_index keys.
Proof.
  induction keys as [|k rest IH]; simpl; [reflexivity|].
  unfold is_index at 1. destruct (array_index k) as [n|] eqn:Hk; simpl.
  - now rewrite (array_index_canonical _ _ Hk), IH.
  - exact IH.
Qed.

Lemma filter_split_perm {A : Type} (f : A -> bool) (l : list A) :
  Permutation (filter f l ++ filter (fun x => negb (f x)) l) l.
Proof.
  induction l as [|x rest IH]; simpl; [reflexivity|].
  destruct (f x); simpl.
  - now constructor.
  - rewrite <- Permutation_middle. now constructor.
Qed.

Lemma own_keys_perm (keys : list string) : Permutation (own_keys keys) keys.
Proof.
  unfold own_keys.
  rewrite (Permutation_map string_of_N (sort_indices_perm (index_keys keys))).
  rewrite index_keys_names. apply filter_split_perm.
Qed.

Section ManifestFacts.
Variable readFile : string -> string -> Outcome string.
Variable JSON_parse : string -> Completion Json.

Lemma getCommands_of_object (text : string) (props : list (string * Json)) :
  readFile "./oclif.manifest.json" "utf8" = Resolved text ->
  JSON_parse text = Normal (JObject props) ->
  getCommandsFromManifest readFile JSON_parse
  = Resolved (lookup "commands" props).
Proof.
  intros Hread Hparse. unfold getCommandsFromManifest.
  rewrite Hread. simpl. rewrite Hparse. reflexivity.
Qed.

(** C7: an error [e] raised by reading the file or by parsing its text
    reaches the caller unchanged, unless its [code] is [ENOENT] (the file
    is absent), in which case the reader fails with the error
    ["Oclif manifest not found."]. *)
Theorem getCommands_read_and_parse_errors (e : JsError) :
  (readFile "./oclif.manifest.json" "utf8" = Rejected e \/
   exists text, readFile "./oclif.manifest.json" "utf8" = Resolved text /\
                JSON_parse text = Throw e) ->
  getCommandsFromManifest readFile JSON_parse
  = Rejected (if has_code e "ENOENT" then manifest_not_found else e).
Proof.
  unfold getCommandsFromManifest.
  intros [Hread | [text [Hread Hparse]]]; rewrite Hread; simpl.
  - destruct (has_code e "ENOENT"); reflexivity.
  - rewrite Hparse. simpl. destruct (has_code e "ENOENT"); reflexivity.
Qed.

(** C10: when the file is read and parses to a value other than [null]
    that has no [commands] property, [getCommandsFromManifest] resolves
    with [undefined] and raises nothing; the error
    ["Commands second not found in manifest."] comes from
    [getCommandIdsFromManifest]. *)
Theorem getCommands_without_commands_field (text : string) (manifest : Json) :
  readFile "./oclif.manifest.json" "utf8" = Resolved text ->
  JSON_parse text = Normal manifest ->
  manifest <> JNull ->
  (forall props, manifest = JObject props -> lookup "commands" props = None) ->
  getCommandsFromManifest readFile JSON_parse = Resolved None /\
  getCommandIdsFromManifest readFile JSON_parse = Rejected commands_missing.
Proof.
  intros Hread Hparse Hnull Hlacks.
  assert (Hc : getCommandsFromManifest readFile JSON_parse = Resolved None).
  { unfold getCommandsFromManifest. rewrite Hread. simpl. rewrite Hparse.
    simpl. destruct manifest; try reflexivity.
    - congruence.
    - simpl. now rewrite (Hlacks props eq_refl). }
  split; [exact Hc|].
  unfold getCommandIdsFromManifest. rewrite Hc. reflexivity.
Qed.

(** C6 (amended): for a manifest that parses to a JSON object,
    [getCommandIdsFromManifest] fails with
    ["Commands second not found in manifest."] exactly when the [commands]
    property is absent or [null]; when [commands] is an object it resolves
    with that object's keys, each once: a rearrangement of the keys in
    which array-index keys come first. *)
Theorem getCommandIds_of_object_manifest
    (text : string) (props : list (string * Json)) :
  readFile "./oclif.manifest.json" "utf8" = Resolved text ->
  JSON_parse text = Normal (JObject props) ->
  (getCommandIdsFromManifest readFile JSON_parse = Rejected commands_missing
   <-> (lookup "commands" props = None \/
        lookup "commands" props = Some JNull)) /\
  (forall commands, lookup "commands" props = Some (JObject commands) ->
     exists ids,
       getCommandIdsFromManifest readFile JSON_parse = Resolved ids /\
       Permutation ids (map fst commands)).
Proof.
  intros Hread Hparse.
  pose proof (getCommands_of_object text props Hread Hparse) as Hc.
  unfold getCommandIdsFromManifest. rewrite Hc. simpl. split.
  - destruct (lookup "commands" props) as [c|] eqn:Hl.
    + destruct c; simpl; split;
        try (intros H; discriminate H);
        try (intros [H|H]; discriminate H).
      * intros _. now right.
      * reflexivity.
    + simpl. split; [intros _; now left | reflexivity].
  - intros commands Hl. rewrite Hl. simpl.
    exists (own_keys (map fst commands)). split; [reflexivity|].
    apply own_keys_perm.
Qed.

End ManifestFacts.

Lemma getCommands_read_and_parse_errors_witness :
  getCommandsFromManifest Samples.readFile_absent Samples.parse_sample
  = Rejected manifest_not_found.
Proof.
  apply (getCommands_read_and_parse_errors
           Samples.readFile_absent Samples.parse_sample Samples.enoent).
  left. reflexivity.
Defined.

Lemma getCommands_without_commands_field_witness :
  getCommandsFromManifest (Samples.readFile_of "no-commands")
    Samples.parse_sample = Resolved None /\
  getCommandIdsFromManifest (Samples.readFile_of "no-commands")
    Samples.parse_sample = Rejected commands_missing.
Proof.
  apply (getCommands_without_commands_field
           (Samples.readFile_of "no-commands") Samples.parse_sample
           "no-commands" (JObject [("version", JString "1.0")])).
  - reflexivity.
  - reflexivity.
  - discriminate.
  - intros props H. injection H as <-. reflexivity.
Defined.

(** C6 (as stated, refuted): the manifest [{ commands: null }] has a
    [commands] field, and [getCommandIdsFromManifest] still fails with the
    missing-section error instead of returning keys. *)
Lemma getCommandIds_null_commands :
  Samples.parse_sample "null-commands"
  = Normal (JObject [("commands", JNull)]) /\
  lookup "commands" [("commands", JNull)] = Some JNull /\
  getCommandIdsFromManifest (Samples.readFile_of "null-commands")
    Samples.parse_sample = Rejected commands_missing.
Proof.
  repeat split.
Qed.

Lemma getCommandIds_of_object_manifest_witness :
  exists ids,
    getCommandIdsFromManifest (Samples.readFile_of "two-commands")
      Samples.parse_sample = Resolved ids /\
    Permutation ids ["env:add"; "logs"].
Proof.
  destruct (getCommandIds_of_object_manifest
              (Samples.readFile_of "two-commands") Samples.parse_sample
              "two-commands"
              [("version", JString "1.0");
               ("commands", JObject [("env:add", JObject []);
                                     ("logs", JObject [])])]
              eq_refl eq_refl) as [_ Hkeys].
  exact (Hkeys [("env:add", JObject []); ("logs", JObject [])] eq_refl).
Defined.

(** C10 (as stated, refuted): the manifest file exists and its text
    parses as the JSON value [null], which has no [commands] field; yet
    [getCommandsFromManifest] does not resolve with [undefined] but fails
    with a [TypeError], and [getCommandIdsFromManifest] does not raise the
    missing-section error. *)
Lemma getCommands_null_manifest_throws :
  Samples.readFile_of "null" "./oclif.manifest.json" "utf8"
  = Resolved "null" /\
  LogReading.parse_with_null "null" = Normal JNull /\
  (exists e,
     getCommandsFromManifest (Samples.readFile_of "null")
       LogReading.parse_with_null = Rejected e /\
     err_class e = TypeError) /\
  getCommandsFromManifest (Samples.readFile_of "null")
    LogReading.parse_with_null <> Resolved None /\
  getCommandIdsFromManifest (Samples.readFile_of "null")
    LogReading.parse_with_null <> Rejected commands_missing.
Proof.
  split; [reflexivity|]. split; [reflexivity|]. split.
  - eexists. split; reflexivity.
  - split; discriminate.
Qed.

(** ** The [logs] command *)

Import Logs.

Section LogsFacts.
Context {World DeviceLogStream : Type}.
Variable env : Collaborators World DeviceLogStream.

(** A display step that succeeds made no history request and handed the
    entry to the formatter exactly once. *)
Lemma displayCloudLog_resolved (options : Options) (l : LogMessage)
    (w w1 : World) (calls : list (Call DeviceLogStream)) :
  displayCloudLog env options l w = (Resolved tt, w1, calls) ->
  history_calls calls = [] /\ map line (displayed calls) = [l].
Proof.
  unfold displayCloudLog. destruct (isSystem l); simpl.
  - unfold invoke.
    destruct (displayLogObject env (mkLogObject None l)
                (flag (system options)) (servicesToDisplay options) w)
      as [o w2].
    intros H. injection H as _ _ <-. now split.
  - unfold bind, perform, invoke.
    destruct (serviceIdToName env (serviceId l) w) as [[name|e|] w2];
      [|intros H; discriminate H|intros H; discriminate H].
    match goal with
    | |- context [displayLogObject env ?o ?s ?v w2] =>
        destruct (displayLogObject env o s v w2) as [o' w3]
    end.
    intros H. injection H as _ _ <-. now split.
Qed.

Lemma history_calls_app (a b : list (Call DeviceLogStream)) :
  history_calls (a ++ b) = (history_calls a ++ history_calls b)%list.
Proof.
  unfold history_calls. apply flat_map_app.
Qed.

Lemma displayed_app (a b : list (Call DeviceLogStream)) :
  displayed (a ++ b) = (displayed a ++ displayed b)%list.
Proof.
  unfold displayed. apply flat_map_app.
Qed.

Lemma forOf_displays_succeed (options : Options) (msgs : list LogMessage) :
  forall w,
  LogReading.displays_succeed env options msgs w ->
  exists w1 calls,
    forOf msgs (displayCloudLog env options) w = (Resolved tt, w1, calls) /\
    history_calls calls = [] /\
    map line (displayed calls) = msgs.
Proof.
  induction msgs as [|l rest IH]; intros w Hok; simpl.
  - exists w, []. repeat split.
  - destruct Hok as [w1 [c1 [Hrun Hrest]]].
    destruct (displayCloudLog_resolved options l w w1 c1 Hrun) as [Hh Hd].
    destruct (IH w1 Hrest) as [w2 [c2 [Hloop [Hh2 Hd2]]]].
    unfold bind. rewrite Hrun, Hloop.
    exists w2, (c1 ++ c2)%list. split; [reflexivity|]. split.
    + now rewrite history_calls_app, Hh, Hh2.
    + now rewrite displayed_app, map_app, Hd, Hd2.
Qed.

(** C5 (amended): on the cloud path with the tail flag unset, when the
    login check and the history request succeed and the display step
    succeeds for each returned message in turn, the command requests the
    history once, hands the returned messages to the formatter one by one
    in the order of the list, each exactly once, and returns normally. *)
Theorem action_cloud_history
    (params : Params) (options : Options) (w w1 w2 : World)
    (logMessages : list LogMessage) :
  let id := uuidOrDevice (normalizeUuidProp env params) in
  validateIPAddress env id = false ->
  validateDotLocalUrl env id = false ->
  flag (tail options) = false ->
  checkLoggedIn env w = (Resolved tt, w1) ->
  history env id w1 = (Resolved logMessages, w2) ->
  LogReading.displays_succeed env options logMessages w2 ->
  exists w3 calls,
    action env params options w = (Resolved tt, w3, calls) /\
    history_calls calls = [id] /\
    map line (displayed calls) = logMessages.
Proof.
  intros id Hip Hlocal Htail Hlogin Hhist Hok.
  destruct (forOf_displays_succeed options logMessages w2 Hok)
    as [w3 [calls [Hrun [Hh Hd]]]].
  exists w3. eexists.
  unfold action. fold id. rewrite Hip, Hlocal, Htail.
  simpl (false || false). cbv iota.
  unfold bind at 1. unfold perform at 1. rewrite Hlogin.
  unfold bind at 1. unfold perform at 1. rewrite Hhist.
  rewrite Hrun. split; [reflexivity|]. split.
  - simpl. now rewrite Hh.
  - simpl. exact Hd.
Qed.

(** C8 (amended): for a log entry that is not a system entry the display
    step asks [serviceIdToName] for the entry's service id and, when that
    resolves, hands the entry to the formatter under the resolved name, or
    under ["Unknown service"] when no name came back; a system entry is
    handed to the formatter as it is, without a lookup and without a
    service name. *)
Theorem displayCloudLog_service_name
    (options : Options) (l : LogMessage) (w : World) :
  (isSystem l = false ->
   forall resolved w1,
     serviceIdToName env (serviceId l) w = (Resolved resolved, w1) ->
     let serviceName :=
       match resolved with Some n => n | None => "Unknown service" end in
     exists out w2,
       displayCloudLog env options l w
       = (out, w2,
          [CallServiceIdToName (serviceId l);
           CallDisplayLogObject (mkLogObject (Some serviceName) l)
             (flag (system options)) (servicesToDisplay options)])) /\
  (isSystem l = true ->
   exists out w2,
     displayCloudLog env options l w
     = (out, w2,
        [CallDisplayLogObject (mkLogObject None l)
           (flag (system options)) (servicesToDisplay options)])).
Proof.
  split.
  - intros Hsys resolved w1 Hname serviceName.
    unfold displayCloudLog. rewrite Hsys. simpl.
    unfold bind, perform, invoke. rewrite Hname.
    fold serviceName.
    destruct (displayLogObject env (mkLogObject (Some serviceName) l)
                (flag (system options)) (servicesToDisplay options) w1)
      as [o w2].
    now exists (settle o), w2.
  - intros Hsys. unfold displayCloudLog. rewrite Hsys. simpl.
    unfold invoke.
    destruct (displayLogObject env (mkLogObject None l)
                (flag (system options)) (servicesToDisplay options) w)
      as [o w2].
    now exists (settle o), w2.
Qed.

(** C2: when the device identifier is accepted by [validateIPAddress] or
    by [validateDotLocalUrl], the run is the same for every value of the
    tail flag; it makes no call of the cloud path; after the debug message
    its first call is [ping]; when [ping] fails the command fails with the
    error ["Cannot access local mode device at address <id>"], having made
    no further call; when [ping] succeeds the command goes on to
    [getLogStream] and hands the stream to [displayDeviceLogs], whose
    outcome is the command's. *)
Theorem action_local_device
    (params : Params) (options : Options) (w : World) :
  let id := uuidOrDevice (normalizeUuidProp env params) in
  let msg := "Checking we can access device" in
  let run := action env params options w in
  validateIPAddress env id = true \/ validateDotLocalUrl env id = true ->
  (forall t,
     action env params (mkOptions t (service options) (system options)) w
     = run) /\
  (exists rest,
     snd run = CallLogDebug msg :: CallPing id :: rest /\
     existsb is_cloud_call (snd run) = false) /\
  (forall e w1,
     ping env id (logDebug env msg w) = (Rejected e, w1) ->
     run = (Rejected
              (mkJsError ExpectedError
                 ("Cannot access local mode device at address " ++ id) None),
            w1, [CallLogDebug msg; CallPing id])) /\
  (forall w1,
     ping env id (logDebug env msg w) = (Pending, w1) ->
     run = (Pending, w1, [CallLogDebug msg; CallPing id])) /\
  (forall w1,
     ping env id (logDebug env msg w) = (Resolved tt, w1) ->
     (forall logStream w2 out w3,
        getLogStream env id w1 = (Resolved logStream, w2) ->
        displayDeviceLogs env logStream (flag (system options))
          (servicesToDisplay options) w2 = (out, w3) ->
        run = (out, w3,
               [CallLogDebug msg; CallPing id; CallGetLogStream id;
                CallDisplayDeviceLogs logStream (flag (system options))
                  (servicesToDisplay options)])) /\
     (forall e w2,
        getLogStream env id w1 = (Rejected e, w2) ->
        run = (Rejected e, w2,
               [CallLogDebug msg; CallPing id; CallGetLogStream id])) /\
     (forall w2,
        getLogStream env id w1 = (Pending, w2) ->
        run = (Pending, w2,
               [CallLogDebug msg; CallPing id; CallGetLogStream id]))).
Proof.
  intros id msg run Hlocal.
  assert (Hcond : validateIPAddress env id || validateDotLocalUrl env id
                  = true).
  { apply orb_true_iff. exact Hlocal. }
  subst run. unfold action. fold id. rewrite Hcond. simpl.
  split; [reflexivity|]. fold msg.
  unfold bind, catch, perform, throw, debug.
  destruct (ping env id (logDebug env msg w)) as [[[]|e|] w1] eqn:Hping.
  - split; [|split; [|split]].
    + destruct (getLogStream env id w1) as [[ls|e|] w2].
      * destruct (displayDeviceLogs env ls (flag (system options))
                    (servicesToDisplay options) w2) as [o w3].
        simpl. eexists. split; reflexivity.
      * simpl. eexists. split; reflexivity.
      * simpl. eexists. split; reflexivity.
    + intros e w' H. discriminate H.
    + intros w' H. discriminate H.
    + intros w' H. injection H as <-. split; [|split].
      * intros ls w2 out w3 Hstream Hshow. now rewrite Hstream, Hshow.
      * intros e w2 Hstream. now rewrite Hstream.
      * intros w2 Hstream. now rewrite Hstream.
  - split; [|split; [|split]].
    + simpl. eexists. split; reflexivity.
    + intros e' w' H. injection H as _ <-. reflexivity.
    + intros w' H. discriminate H.
    + intros w' H. discriminate H.
  - split; [|split; [|split]].
    + simpl. eexists. split; reflexivity.
    + intros e' w' H. discriminate H.
    + intros w' H. injection H as <-. reflexivity.
    + intros w' H. discriminate H.
Qed.

Lemma emit_settles (options : Options) (events : LogStream) :
  forall (p : PromiseState) (w : World),
  exists q w1 calls,
    emit env options events p w = (Resolved q, w1, calls) /\
    (p <> Unsettled -> q = p) /\
    (p = Unsettled ->
     q <> Fulfilled /\
     (forall e, q = Failed e -> In (StreamError e) events) /\
     ((exists e, In (StreamError e) events) -> exists e, q = Failed e)).
Proof.
  induction events as [|ev rest IH]; intros p w.
  - exists p, w, []. split; [reflexivity|]. split; [reflexivity|].
    intros ->. split; [discriminate|]. split.
    + intros e H. discriminate H.
    + intros [e []].
  - destruct ev as [l|e]; simpl.
    + unfold bind, detach.
      destruct (displayCloudLog env options l w) as [[o w1] c1].
      destruct (IH p w1) as [q [w2 [c2 [Hrun [Hkeep Hfresh]]]]].
      rewrite Hrun. exists q, w2, (c1 ++ c2)%list.
      split; [reflexivity|]. split; [exact Hkeep|].
      intros Hp. destruct (Hfresh Hp) as [Hnf [Hin Hex]].
      split; [exact Hnf|]. split.
      * intros e He. right. now apply Hin.
      * intros [e [Habs|He]]; [discriminate Habs|].
        apply Hex. now exists e.
    + destruct (IH (reject e p) w) as [q [w2 [c2 [Hrun [Hkeep Hfresh]]]]].
      exists q, w2, c2. split; [exact Hrun|]. split.
      * intros Hp. rewrite Hkeep; destruct p; simpl; congruence.
      * intros ->. simpl in Hkeep.
        assert (Hq : q = Failed e) by (apply Hkeep; discriminate).
        subst q. split; [discriminate|]. split.
        -- intros e' He'. injection He' as <-. now left.
        -- intros _. now exists e.
Qed.

(** C3: on the cloud path with the tail flag set, once the login check
    and the subscription have succeeded, the promise the command awaits is
    never fulfilled, whatever prefix of the stream's events has been
    emitted; it is rejected exactly when an ['error'] event is among them,
    with the error of such an event; accordingly the command never
    returns normally and fails exactly when the stream emits an error. *)
Theorem action_cloud_tail
    (params : Params) (options : Options) (w w1 w2 : World)
    (logStream : LogStream) :
  let id := uuidOrDevice (normalizeUuidProp env params) in
  validateIPAddress env id = false ->
  validateDotLocalUrl env id = false ->
  flag (tail options) = true ->
  checkLoggedIn env w = (Resolved tt, w1) ->
  subscribe env id 100 w1 = (Resolved logStream, w2) ->
  (forall n, exists promise w3 calls,
     emit env options (firstn n logStream) Unsettled w2
     = (Resolved promise, w3, calls) /\
     promise <> Fulfilled /\
     (forall e, promise = Failed e ->
                In (StreamError e) (firstn n logStream)) /\
     ((exists e, In (StreamError e) (firstn n logStream)) ->
      exists e, promise = Failed e)) /\
  (let out := fst (fst (action env params options w)) in
   (forall u, out <> Resolved u) /\
   (forall e, out = Rejected e -> In (StreamError e) logStream) /\
   ((exists e, In (StreamError e) logStream) -> exists e, out = Rejected e) /\
   ((forall e, ~ In (StreamError e) logStream) -> out = Pending)).
Proof.
  intros id Hip Hlocal Htail Hlogin Hsub. split.
  - intros n.
    destruct (emit_settles options (firstn n logStream) Unsettled w2)
      as [q [w3 [calls [Hrun [_ Hfresh]]]]].
    exists q, w3, calls. split; [exact Hrun|]. now apply Hfresh.
  - destruct (emit_settles options logStream Unsettled w2)
      as [q [w3 [calls [Hrun [_ Hfresh]]]]].
    destruct (Hfresh eq_refl) as [Hnf [Hin Hex]].
    assert (Hout : fst (fst (action env params options w))
                   = fst (fst (await (DeviceLogStream := DeviceLogStream) q w3))).
    { unfold action. fold id. rewrite Hip, Hlocal, Htail.
      simpl (false || false). cbv iota.
      unfold bind, perform. rewrite Hlogin, Hsub, Hrun.
      destruct (await (DeviceLogStream := DeviceLogStream) q w3) as [[o w4] t4]. reflexivity. }
    cbv zeta. rewrite Hout.
    destruct q as [| |e]; simpl.
    + split; [|split; [|split]].
      * intros u H. discriminate H.
      * intros e H. discriminate H.
      * intros Hsome. destruct (Hex Hsome) as [e He]. discriminate He.
      * reflexivity.
    + congruence.
    + split; [|split; [|split]].
      * intros u H. discriminate H.
      * intros e' H. injection H as <-. now apply Hin.
      * intros _. now exists e.
      * intros Hnone. exfalso. apply (Hnone e). now apply Hin.
Qed.

End LogsFacts.

(** ** The statements on the sample world *)

Import LogSamples.

Lemma action_cloud_history_witness :
  exists w3 calls,
    action sample_env (mkParams "23c73a1") no_options 0
    = (Resolved tt, w3, calls) /\
    history_calls calls = ["23c73a1"] /\
    map line (displayed calls) = [started; hello; orphan].
Proof.
  apply (action_cloud_history sample_env (mkParams "23c73a1") no_options
           0 0 0 [started; hello; orphan]).
  - reflexivity.
  - reflexivity.
  - reflexivity.
  - reflexivity.
  - reflexivity.
  - simpl. repeat (do 2 eexists; split; [vm_compute; reflexivity|]).
    exact I.
Defined.

(** C5 (as stated, refuted): on the cloud path without the tail flag the
    history returns four messages, the name lookup fails for the third,
    and the command fails with that error after handing only the first
    two to the formatter. *)
Lemma action_cloud_history_aborts :
  let run :=
    action LogReading.flaky_env (mkParams "23c73a1") no_options 0 in
  fst (history LogReading.flaky_env "23c73a1" 0)
  = Resolved [started; hello; orphan; killed] /\
  fst (fst run) = Rejected broken /\
  map line (displayed (snd run)) = [started; hello].
Proof.
  repeat split.
Qed.

Lemma action_cloud_tail_witness :
  exists e,
    fst (fst (action sample_env (mkParams "23c73a1") tail_options 0))
    = Rejected e.
Proof.
  destruct (action_cloud_tail sample_env (mkParams "23c73a1") tail_options
              0 0 0
              [Line started; Line hello; StreamError broken; Line orphan]
              eq_refl eq_refl eq_refl eq_refl eq_refl)
    as [_ [_ [_ [Hfails _]]]].
  apply Hfails. exists broken. simpl. tauto.
Defined.

Lemma action_local_device_witness :
  action sample_env (mkParams "192.168.0.31") tail_options 0
  = (Rejected
       (mkJsError ExpectedError
          "Cannot access local mode device at address 192.168.0.31" None),
     0,
     [CallLogDebug "Checking we can access device";
      CallPing "192.168.0.31"]).
Proof.
  destruct (action_local_device sample_env (mkParams "192.168.0.31")
              tail_options 0 (or_introl eq_refl))
    as [_ [_ [Hping _]]].
  exact (Hping unreachable 0 eq_refl).
Defined.

Lemma displayCloudLog_service_name_witness :
  exists out w2,
    displayCloudLog sample_env no_options orphan 0
    = (out, w2,
       [CallServiceIdToName (Some 9%Z);
        CallDisplayLogObject (mkLogObject (Some "Unknown service") orphan)
          false None]).
Proof.
  destruct (displayCloudLog_service_name sample_env no_options orphan 0)
    as [Hservice _].
  exact (Hservice eq_refl None 0 eq_refl).
Defined.

(** C8 (as stated, refuted): the system entry [killed] carries the service
    id 9, for which [serviceIdToName] has no name; the display step makes
    no lookup for it and hands it to the formatter without any service
    name, not under ["Unknown service"]. *)
Lemma displayCloudLog_system_entry_unresolved :
  serviceId killed = Some 9%Z /\
  fst (serviceIdToName sample_env (serviceId killed) 0) = Resolved None /\
  let calls := snd (displayCloudLog sample_env no_options killed 0) in
  resolutions calls = [] /\
  map serviceName (displayed calls) = [None] /\
  map serviceName (displayed calls) <> [Some "Unknown service"].
Proof.
  repeat split. discriminate.
Qed.

(* ===================================================================== *)
(** * Further properties *)

Import Reading.

(** ** Characters *)

Lemma upper_char_not_lower (c : ascii) : is_lower (upper_char c) = false.
Proof.
  destruct c as [[] [] [] [] [] [] [] []]; reflexivity.
Qed.

Lemma lower_char_not_upper (c : ascii) : is_upper (lower_char c) = false.
Proof.
  destruct c as [[] [] [] [] [] [] [] []]; reflexivity.
Qed.

Lemma lower_char_fixes_non_upper (c : ascii) :
  is_upper c = false -> lower_char c = c.
Proof.
  unfold lower_char. now intros ->.
Qed.

Lemma lower_char_angle (c : ascii) : not_angle (lower_char c) = not_angle c.
Proof.
  destruct c as [[] [] [] [] [] [] [] []]; reflexivity.
Qed.

Lemma lower_upper_char (c : ascii) : lower_char (upper_char c) = lower_char c.
Proof.
  destruct c as [[] [] [] [] [] [] [] []]; reflexivity.
Qed.

Lemma upper_char_of_letter (c : ascii) :
  is_letter c = true -> is_upper (upper_char c) = true.
Proof.
  destruct c as [[] [] [] [] [] [] [] []]; simpl; intros H;
    try reflexivity; discriminate H.
Qed.

Lemma upper_not_space (c : ascii) : is_upper c = true -> is_space c = false.
Proof.
  destruct c as [[] [] [] [] [] [] [] []]; simpl; intros H;
    try reflexivity; discriminate H.
Qed.

Lemma append_assoc (a b c : string) : (a ++ b) ++ c = a ++ (b ++ c).
Proof.
  induction a as [|x r IH]; simpl; [reflexivity|]. now rewrite IH.
Qed.

Lemma append_nil_r (a : string) : a ++ "" = a.
Proof.
  induction a as [|x r IH]; simpl; [reflexivity|]. now rewrite IH.
Qed.

Lemma all_chars_append (p : ascii -> bool) (a b : string) :
  all_chars p (a ++ b) = all_chars p a && all_chars p b.
Proof.
  induction a as [|c r IH]; simpl; [reflexivity|].
  now rewrite IH, andb_assoc.
Qed.

Lemma all_chars_map (p : ascii -> bool) (f : ascii -> ascii) (s : string) :
  (forall c, p (f c) = true) -> all_chars p (map_chars f s) = true.
Proof.
  intros Hf. induction s as [|c r IH]; simpl; [reflexivity|].
  now rewrite Hf, IH.
Qed.

Lemma all_chars_join (p : ascii -> bool) (sep : string) (l : list string) :
  all_chars p sep = true ->
  Forall (fun s => all_chars p s = true) l ->
  all_chars p (join sep l) = true.
Proof.
  intros Hsep Hall. unfold join.
  induction l as [|s rest IH]; [reflexivity|].
  inversion Hall as [|? ? Hs Hrest]; subst.
  destruct rest as [|s' rest']; [exact Hs|].
  change (String.concat sep (s :: s' :: rest'))
    with (s ++ sep ++ String.concat sep (s' :: rest')).
  rewrite !all_chars_append, Hs, Hsep. simpl. now apply IH.
Qed.

Lemma map_chars_append (f : ascii -> ascii) (a b : string) :
  map_chars f (a ++ b) = map_chars f a ++ map_chars f b.
Proof.
  induction a as [|c r IH]; simpl; [reflexivity|]. now rewrite IH.
Qed.

Lemma map_chars_join (f : ascii -> ascii) (sep : string) (l : list string) :
  map_chars f (join sep l) = join (map_chars f sep) (map (map_chars f) l).
Proof.
  unfold join. induction l as [|s rest IH]; [reflexivity|].
  destruct rest as [|s' rest']; [reflexivity|].
  change (String.concat sep (s :: s' :: rest'))
    with (s ++ sep ++ String.concat sep (s' :: rest')).
  rewrite !map_chars_append, IH. reflexivity.
Qed.

Lemma toLowerCase_fixes (s : string) :
  all_chars (fun c => negb (is_upper c)) s = true -> toLowerCase s = s.
Proof.
  induction s as [|c r IH]; simpl; intros H; [reflexivity|].
  apply andb_true_iff in H as [Hc Hr]. apply negb_true_iff in Hc.
  unfold toLowerCase in *. simpl.
  now rewrite (lower_char_fixes_non_upper c Hc), (IH Hr).
Qed.

Lemma toLowerCase_toUpperCase (s : string) :
  toLowerCase (toUpperCase s) = toLowerCase s.
Proof.
  induction s as [|c r IH]; [reflexivity|].
  unfold toLowerCase, toUpperCase in *. simpl.
  now rewrite lower_upper_char, IH.
Qed.

(** ** CommandHelp, continued *)

Lemma join_app (sep : string) (a b : list string) :
  a <> [] -> b <> [] ->
  join sep (a ++ b) = join sep a ++ sep ++ join sep b.
Proof.
  unfold join. intros Ha Hb.
  induction a as [|s rest IH]; [congruence|].
  destruct rest as [|s' rest'].
  - destruct b as [|t b']; [congruence|]. reflexivity.
  - change (String.concat sep ((s :: s' :: rest') ++ b))
      with (s ++ sep ++ String.concat sep ((s' :: rest') ++ b)).
    rewrite IH by discriminate.
    change (String.concat sep (s :: s' :: rest'))
      with (s ++ sep ++ String.concat sep (s' :: rest')).
    now rewrite !append_assoc.
Qed.

Lemma arg_not_lower (a : Arg) :
  all_chars (fun c => negb (is_lower c)) (arg a) = true.
Proof.
  assert (Hup : all_chars (fun c => negb (is_lower c)) (toUpperCase (name a))
                = true).
  { apply all_chars_map. intros c. now rewrite upper_char_not_lower. }
  unfold arg. destruct (flag (required a)); [exact Hup|].
  change ("[" ++ toUpperCase (name a) ++ "]")
    with (String "[" (toUpperCase (name a) ++ "]")).
  simpl. now rewrite all_chars_append, Hup.
Qed.

(** X1: the usage line never contains a lowercase ASCII letter, whatever
    the argument names are. *)
Theorem defaultUsage_has_no_lowercase (command : Command) :
  all_chars (fun c => negb (is_lower c)) (defaultUsage command) = true.
Proof.
  rewrite defaultUsage_unfold. apply all_chars_join; [reflexivity|].
  apply Forall_forall. intros s Hs.
  apply in_map_iff in Hs as [a [<- _]]. apply arg_not_lower.
Qed.

(** X2: a hidden argument, wherever it stands in the list and whatever
    its name, leaves the usage line as it is without it. *)
Theorem defaultUsage_ignores_hidden (before after : list Arg) (h : Arg) :
  flag (hidden h) = true ->
  defaultUsage (mkCommand (Some (before ++ h :: after)%list))
  = defaultUsage (mkCommand (Some (before ++ after)%list)).
Proof.
  intros Hh. rewrite !defaultUsage_unfold. simpl.
  rewrite !filter_app. simpl. now rewrite Hh.
Qed.

Lemma defaultUsage_ignores_hidden_witness :
  defaultUsage
    (mkCommand (Some ([mkArg "file" (Some true) None]
                      ++ mkArg "secret key" None (Some true)
                      :: [mkArg "app" None None])%list))
  = defaultUsage
      (mkCommand (Some ([mkArg "file" (Some true) None]
                        ++ [mkArg "app" None None])%list)).
Proof.
  apply (defaultUsage_ignores_hidden
           [mkArg "file" (Some true) None] [mkArg "app" None None]
           (mkArg "secret key" None (Some true))).
  reflexivity.
Defined.

(** X3: the usage line of two argument lists put one after the other is
    the two usage lines separated by one space, when each list has a
    visible argument; a list without visible arguments contributes
    nothing, not even a space. *)
Theorem defaultUsage_app (l1 l2 : list Arg) :
  (visible l1 <> [] -> visible l2 <> [] ->
   defaultUsage (mkCommand (Some (l1 ++ l2)%list))
   = defaultUsage (mkCommand (Some l1)) ++ " "
     ++ defaultUsage (mkCommand (Some l2))) /\
  (visible l1 = [] ->
   defaultUsage (mkCommand (Some (l1 ++ l2)%list))
   = defaultUsage (mkCommand (Some l2))) /\
  (visible l2 = [] ->
   defaultUsage (mkCommand (Some (l1 ++ l2)%list))
   = defaultUsage (mkCommand (Some l1))).
Proof.
  rewrite !defaultUsage_unfold. simpl. rewrite filter_app, map_app.
  fold (visible l1). fold (visible l2). split; [|split].
  - intros H1 H2. apply join_app.
    + destruct (visible l1); [congruence | discriminate].
    + destruct (visible l2); [congruence | discriminate].
  - intros ->. reflexivity.
  - intros ->. simpl. now rewrite app_nil_r.
Qed.

Lemma defaultUsage_app_witness :
  defaultUsage
    (mkCommand (Some ([mkArg "name" (Some true) None]
                      ++ [mkArg "value" None None])%list))
  = "NAME" ++ " " ++ "[VALUE]".
Proof.
  destruct (defaultUsage_app [mkArg "name" (Some true) None]
              [mkArg "value" None None]) as [Hboth _].
  apply Hboth; discriminate.
Defined.

(** ** capitanoizeOclifUsage, continued *)

Lemma match_len_non_upper (s : string) :
  all_chars (fun c => negb (is_upper c)) s = true -> match_len s = None.
Proof.
  destruct s as [|c r]; simpl; [reflexivity|].
  intros H. apply andb_true_iff in H as [Hc _].
  apply negb_true_iff in Hc. now rewrite Hc.
Qed.

Lemma replaceMatches_no_upper (s : string) :
  forall prev,
  all_chars (fun c => negb (is_upper c)) s = true ->
  replaceMatches prev 0 s = s.
Proof.
  induction s as [|c r IH]; intros prev H; [reflexivity|].
  pose proof (match_len_non_upper _ H) as Hm.
  simpl in H. apply andb_true_iff in H as [_ Hr].
  cbn [replaceMatches]. rewrite Hm.
  destruct (lookbehind prev); now rewrite (IH _ Hr).
Qed.

Lemma replaceMatches_no_space (s : string) :
  forall prev,
  lookbehind prev = false ->
  all_chars (fun c => negb (is_space c)) s = true ->
  replaceMatches prev 0 s = s.
Proof.
  induction s as [|c r IH]; intros prev Hprev H; [reflexivity|].
  simpl in H. apply andb_true_iff in H as [Hc Hr].
  apply negb_true_iff in Hc.
  cbn [replaceMatches]. rewrite Hprev.
  now rewrite (IH (Some c) Hc Hr).
Qed.

Lemma keep_chars_append (p : ascii -> bool) (a b : string) :
  keep_chars p (a ++ b) = keep_chars p a ++ keep_chars p b.
Proof.
  induction a as [|c r IH]; simpl; [reflexivity|].
  destruct (p c); simpl; now rewrite IH.
Qed.

Lemma keep_chars_close (pending : nat) (s : string) :
  keep_chars not_angle (close pending s) = keep_chars not_angle s.
Proof.
  destruct pending; reflexivity.
Qed.

Lemma keep_chars_replaceMatches (s : string) :
  forall prev pending,
  keep_chars not_angle (replaceMatches prev pending s)
  = keep_chars not_angle s.
Proof.
  induction s as [|c r IH]; intros prev pending; [reflexivity|].
  cbn [replaceMatches]. destruct pending as [|p].
  - destruct (if lookbehind prev then match_len (String c r) else None)
      as [[|p]|].
    + cbn [keep_chars]. now rewrite IH.
    + change ("<" ++ String c (close p (replaceMatches (Some c) p r)))
        with (String "<" (String c (close p (replaceMatches (Some c) p r)))).
      cbn [keep_chars]. change (not_angle "<") with false. cbv iota.
      destruct (not_angle c); now rewrite keep_chars_close, IH.
    + cbn [keep_chars]. now rewrite IH.
  - cbn [keep_chars].
    destruct (not_angle c); now rewrite keep_chars_close, IH.
Qed.

Lemma keep_chars_lower (s : string) :
  keep_chars not_angle (toLowerCase s)
  = toLowerCase (keep_chars not_angle s).
Proof.
  unfold toLowerCase.
  induction s as [|c r IH]; [reflexivity|].
  simpl. rewrite lower_char_angle.
  destruct (not_angle c); simpl; now rewrite IH.
Qed.

(** X4: the converted usage contains no uppercase ASCII letter. *)
Theorem capitanoize_has_no_uppercase (oclifUsage : Usage) :
  all_chars (fun c => negb (is_upper c)) (capitanoizeOclifUsage oclifUsage)
  = true.
Proof.
  unfold capitanoizeOclifUsage, toLowerCase. apply all_chars_map.
  intros c. now rewrite lower_char_not_upper.
Qed.

(** X5: converting a converted usage again changes nothing. *)
Theorem capitanoize_idempotent (oclifUsage : Usage) :
  capitanoizeOclifUsage (UsageString (capitanoizeOclifUsage oclifUsage))
  = capitanoizeOclifUsage oclifUsage.
Proof.
  pose proof (capitanoize_has_no_uppercase oclifUsage) as H.
  set (out := capitanoizeOclifUsage oclifUsage) in *.
  unfold capitanoizeOclifUsage at 1. simpl usageToString.
  rewrite (replaceMatches_no_upper out None H).
  now apply toLowerCase_fixes.
Qed.

(** X6: the conversion only inserts angle brackets and lowercases: with
    the characters [<] and [>] removed, the output is the lowercased
    input with its [<] and [>] removed. *)
Theorem capitanoize_only_adds_angle_brackets (oclifUsage : Usage) :
  keep_chars not_angle (capitanoizeOclifUsage oclifUsage)
  = toLowerCase (keep_chars not_angle (usageToString oclifUsage)).
Proof.
  unfold capitanoizeOclifUsage.
  now rewrite keep_chars_lower, keep_chars_replaceMatches.
Qed.

(** X7: a usage string of ASCII characters without white space is only
    lowercased: no token is wrapped, in particular not an uppercase word
    at the very start. *)
Theorem capitanoize_without_space (s : string) :
  all_chars is_ascii s = true ->
  all_chars (fun c => negb (is_space c)) s = true ->
  capitanoizeOclifUsage (UsageString s) = toLowerCase s.
Proof.
  intros _ H. unfold capitanoizeOclifUsage. simpl usageToString.
  now rewrite (replaceMatches_no_space s None eq_refl H).
Qed.

Lemma capitanoize_without_space_witness :
  capitanoizeOclifUsage (UsageString "NAME") = toLowerCase "NAME".
Proof.
  apply (capitanoize_without_space "NAME"); reflexivity.
Defined.

Lemma space_not_upper (c : ascii) : is_space c = true -> is_upper c = false.
Proof.
  intros H. destruct (is_upper c) eqn:Hu; [|reflexivity].
  rewrite (upper_not_space c Hu) in H. discriminate H.
Qed.

Lemma match_len_bound (s : string) :
  forall n, match_len s = Some n -> n <= String.length s.
Proof.
  induction s as [|c r IH]; simpl; intros n H; [discriminate H|].
  destruct (is_upper c); [|discriminate H].
  destruct (match_len r) as [m|].
  - injection H as <-. specialize (IH m eq_refl). lia.
  - destruct (lookahead r); [|discriminate H]. injection H as <-. lia.
Qed.

Lemma match_len_before_space (sp : ascii) (s t : string) :
  is_space sp = true ->
  match_len (s ++ String sp t) = match_len s.
Proof.
  intros Hsp. induction s as [|c r IH].
  - simpl. now rewrite (space_not_upper sp Hsp).
  - simpl. rewrite IH. destruct (is_upper c); [|reflexivity].
    destruct (match_len r); [reflexivity|].
    destruct r; simpl; [now rewrite Hsp | reflexivity].
Qed.

Lemma close_append (pending : nat) (a b : string) :
  close pending (a ++ b) = close pending a ++ b.
Proof.
  destruct pending; reflexivity.
Qed.

(** Scanning up to a white-space character and after it are independent,
    provided the match in progress ends before that character. *)
Lemma replaceMatches_before_space (sp : ascii) (s t : string) :
  is_space sp = true ->
  forall prev pending,
  pending <= String.length s ->
  replaceMatches prev pending (s ++ String sp t)
  = replaceMatches prev pending s
    ++ String sp (replaceMatches (Some sp) 0 t).
Proof.
  intros Hsp. induction s as [|c r IH]; intros prev pending Hle.
  - assert (pending = 0) by (simpl in Hle; lia). subst pending.
    cbn [append replaceMatches].
    assert (Hm : match_len (String sp t) = None).
    { simpl. now rewrite (space_not_upper sp Hsp). }
    rewrite Hm. now destruct (lookbehind prev).
  - change (String c r ++ String sp t) with (String c (r ++ String sp t)).
    cbn [replaceMatches]. destruct pending as [|p].
    + change (String c (r ++ String sp t)) with (String c r ++ String sp t).
      rewrite (match_len_before_space sp (String c r) t Hsp).
      destruct (lookbehind prev).
      * destruct (match_len (String c r)) as [[|p]|] eqn:Hm.
        -- rewrite IH by (simpl; lia). reflexivity.
        -- apply match_len_bound in Hm. simpl in Hm.
           rewrite IH by lia. now rewrite close_append.
        -- rewrite IH by (simpl; lia). reflexivity.
      * rewrite IH by (simpl; lia). reflexivity.
    + simpl in Hle. rewrite IH by lia. now rewrite close_append.
Qed.

Lemma match_len_upper_run (w : string) :
  all_chars is_upper w = true -> w <> "" ->
  match_len w = Some (String.length w).
Proof.
  induction w as [|c r IH]; intros Hall Hne; [congruence|].
  simpl in Hall. apply andb_true_iff in Hall as [Hc Hr].
  simpl. rewrite Hc. destruct r as [|d r'].
  - reflexivity.
  - rewrite (IH Hr) by discriminate. reflexivity.
Qed.

Lemma replaceMatches_copy (r : string) :
  forall prev,
  close (String.length r) (replaceMatches prev (String.length r) r)
  = r ++ ">".
Proof.
  induction r as [|d r' IH]; intros prev; [reflexivity|].
  cbn [String.length close replaceMatches]. now rewrite IH.
Qed.

Lemma replaceMatches_upper_word (sp : ascii) (w : string) :
  is_space sp = true ->
  all_chars is_upper w = true -> w <> "" ->
  replaceMatches (Some sp) 0 w = "<" ++ w ++ ">".
Proof.
  intros Hsp Hall Hne.
  pose proof (match_len_upper_run w Hall Hne) as Hm.
  destruct w as [|c r]; [congruence|].
  cbn [replaceMatches lookbehind]. rewrite Hsp, Hm.
  cbn [String.length]. now rewrite replaceMatches_copy.
Qed.

Lemma all_chars_weaken (p q : ascii -> bool) (s : string) :
  (forall c, p c = true -> q c = true) ->
  all_chars p s = true -> all_chars q s = true.
Proof.
  intros Hpq. induction s as [|c r IH]; simpl; intros H; [reflexivity|].
  apply andb_true_iff in H as [Hc Hr]. now rewrite (Hpq c Hc), (IH Hr).
Qed.

Lemma replaceMatches_bracketed_word (prev : option ascii) (w : string) :
  all_chars is_upper w = true ->
  replaceMatches prev 0 ("[" ++ w ++ "]") = "[" ++ w ++ "]".
Proof.
  intros Hall.
  change ("[" ++ w ++ "]") with (String "[" (w ++ "]")).
  cbn [replaceMatches].
  assert (Hm : match_len (String "[" (w ++ "]")) = None) by reflexivity.
  rewrite Hm.
  assert (Hrest : replaceMatches (Some "["%char) 0 (w ++ "]") = w ++ "]").
  { apply replaceMatches_no_space; [reflexivity|].
    rewrite all_chars_append.
    rewrite (all_chars_weaken is_upper (fun c => negb (is_space c)) w).
    - reflexivity.
    - intros c Hc. now rewrite (upper_not_space c Hc).
    - exact Hall. }
  rewrite Hrest. now destruct (lookbehind prev).
Qed.

Lemma toUpperCase_word (s : string) :
  is_word s = true ->
  all_chars is_upper (toUpperCase s) = true /\ toUpperCase s <> "".
Proof.
  unfold is_word. intros H. apply andb_true_iff in H as [Hne Hall]. split.
  - clear Hne. induction s as [|c r IH]; [reflexivity|].
    simpl in Hall. apply andb_true_iff in Hall as [Hc Hr].
    unfold toUpperCase in *. simpl.
    now rewrite (upper_char_of_letter c Hc), (IH Hr).
  - destruct s; [discriminate Hne | discriminate].
Qed.

(** The usage tokens of [defaultUsage] after the replacement step. *)
Lemma replaceMatches_usage_tokens (sp : ascii) (shown : list Arg) :
  is_space sp = true ->
  shown <> [] ->
  Forall (fun a => is_word (name a) = true) shown ->
  replaceMatches (Some sp) 0 (join " " (map arg shown))
  = join " "
      (map (fun a => if flag (required a)
                     then "<" ++ toUpperCase (name a) ++ ">"
                     else "[" ++ toUpperCase (name a) ++ "]") shown).
Proof.
  intros Hsp Hne Hall. revert sp Hsp.
  induction shown as [|a rest IH]; intros sp Hsp; [congruence|].
  inversion Hall as [|? ? Ha Hrest]; subst.
  destruct (toUpperCase_word (name a) Ha) as [Hup Hnonempty].
  assert (Htoken : replaceMatches (Some sp) 0 (arg a)
                   = if flag (required a)
                     then "<" ++ toUpperCase (name a) ++ ">"
                     else "[" ++ toUpperCase (name a) ++ "]").
  { unfold arg. destruct (flag (required a)).
    - now apply replaceMatches_upper_word.
    - now apply replaceMatches_bracketed_word. }
  destruct rest as [|b rest'].
  - simpl. exact Htoken.
  - unfold join in *.
    change (String.concat " " (map arg (a :: b :: rest')))
      with (arg a ++ String " " (String.concat " " (map arg (b :: rest')))).
    rewrite replaceMatches_before_space by (reflexivity || lia).
    rewrite Htoken, (IH ltac:(discriminate) Hrest " "%char eq_refl).
    reflexivity.
Qed.

(** X8: the two functions compose as the documentation of
    [capitanoizeOclifUsage] says: for a command word followed by a space
    and the usage line of arguments whose names are non-empty words of
    ASCII letters, the conversion leaves the conversion of the command
    word, then gives each visible argument in order as [<name>] when
    required and [[name]] when optional, in lowercase, separated by single
    spaces. *)
Theorem capitanoize_of_defaultUsage (cmd : string) (l : list Arg) :
  visible l <> [] ->
  Forall (fun a => is_word (name a) = true) (visible l) ->
  capitanoizeOclifUsage
    (UsageString (cmd ++ " " ++ defaultUsage (mkCommand (Some l))))
  = capitanoizeOclifUsage (UsageString cmd) ++ " "
    ++ join " " (map capitano_arg (visible l)).
Proof.
  intros Hne Hall. unfold capitanoizeOclifUsage. simpl usageToString.
  rewrite defaultUsage_unfold. simpl args. fold (visible l).
  change (cmd ++ " " ++ join " " (map arg (visible l)))
    with (cmd ++ String " " (join " " (map arg (visible l)))).
  rewrite replaceMatches_before_space by (reflexivity || lia).
  fold (visible l).
  rewrite (replaceMatches_usage_tokens " " (visible l) eq_refl Hne Hall).
  unfold toLowerCase. rewrite map_chars_append.
  change (String " " ?x) with (" " ++ x).
  rewrite map_chars_append, map_chars_join, map_map.
  f_equal. f_equal. f_equal.
  apply map_ext. intros a. unfold capitano_arg.
  destruct (flag (required a)); rewrite !map_chars_append;
    fold (toLowerCase (toUpperCase (name a)));
    now rewrite toLowerCase_toUpperCase.
Qed.

Lemma capitanoize_of_defaultUsage_witness :
  capitanoizeOclifUsage
    (UsageString
       ("env add" ++ " "
        ++ defaultUsage
             (mkCommand (Some [mkArg "name" (Some true) None;
                               mkArg "token" None (Some true);
                               mkArg "value" None None]))))
  = "env add" ++ " " ++ "<name> [value]".
Proof.
  apply (capitanoize_of_defaultUsage "env add"
           [mkArg "name" (Some true) None;
            mkArg "token" None (Some true);
            mkArg "value" None None]).
  - discriminate.
  - repeat constructor.
Defined.

(** ** The manifest, continued *)

Lemma own_keys_without_indices (keys : list string) :
  forallb (fun k => negb (is_index k)) keys = true ->
  own_keys keys = keys.
Proof.
  intros H. unfold own_keys.
  assert (Hidx : index_keys keys = []).
  { induction keys as [|k rest IH]; [reflexivity|].
    simpl in H. apply andb_true_iff in H as [Hk Hrest].
    simpl. unfold is_index in Hk.
    destruct (array_index k); [discriminate Hk|]. now apply IH. }
  rewrite Hidx. simpl.
  induction keys as [|k rest IH]; [reflexivity|].
  simpl in H. apply andb_true_iff in H as [Hk Hrest].
  simpl. rewrite Hk. f_equal. apply IH; [exact Hrest|].
  simpl in Hidx. unfold is_index in Hk.
  destruct (array_index k); [discriminate Hk | exact Hidx].
Qed.

Lemma indices_length (n : nat) : List.length (indices n) = n.
Proof.
  unfold indices. now rewrite length_map, length_seq.
Qed.

Section ManifestMore.
Variable readFile : string -> string -> Outcome string.
Variable JSON_parse : string -> Completion Json.

(** X9: [getCommandIdsFromManifest] reports a failure of reading or
    parsing like [getCommandsFromManifest] does: the error unchanged,
    except that an error with code [ENOENT] becomes
    ["Oclif manifest not found."]; it is never turned into the
    missing-section error. *)
Theorem getCommandIds_read_and_parse_errors (e : JsError) :
  (readFile "./oclif.manifest.json" "utf8" = Rejected e \/
   exists text, readFile "./oclif.manifest.json" "utf8" = Resolved text /\
                JSON_parse text = Throw e) ->
  getCommandIdsFromManifest readFile JSON_parse
  = Rejected (if has_code e "ENOENT" then manifest_not_found else e).
Proof.
  unfold getCommandIdsFromManifest, getCommandsFromManifest.
  intros [Hread | [text [Hread Hparse]]]; rewrite Hread; simpl.
  - destruct (has_code e "ENOENT"); reflexivity.
  - rewrite Hparse. simpl. destruct (has_code e "ENOENT"); reflexivity.
Qed.

(** X10: a manifest whose text parses to [null] makes both functions fail
    with the [TypeError] of reading a property of [null]; the error is
    raised outside the [try] block, so it is neither the not-found error
    nor the missing-section error. *)
Theorem null_manifest_is_a_type_error (text : string) :
  readFile "./oclif.manifest.json" "utf8" = Resolved text ->
  JSON_parse text = Normal JNull ->
  exists e,
    getCommandsFromManifest readFile JSON_parse = Rejected e /\
    getCommandIdsFromManifest readFile JSON_parse = Rejected e /\
    err_class e = TypeError /\
    e <> manifest_not_found /\ e <> commands_missing.
Proof.
  intros Hread Hparse.
  unfold getCommandIdsFromManifest, getCommandsFromManifest.
  rewrite Hread. simpl. rewrite Hparse. simpl.
  eexists. repeat split; discriminate.
Qed.

(** X11: when no command name is an array index (a canonical decimal
    number), the ids come back in the order in which the manifest lists
    the commands. *)
Theorem getCommandIds_keeps_manifest_order
    (text : string) (props commands : list (string * Json)) :
  readFile "./oclif.manifest.json" "utf8" = Resolved text ->
  JSON_parse text = Normal (JObject props) ->
  lookup "commands" props = Some (JObject commands) ->
  forallb (fun k => negb (is_index k)) (map fst commands) = true ->
  getCommandIdsFromManifest readFile JSON_parse
  = Resolved (map fst commands).
Proof.
  intros Hread Hparse Hl Hkeys.
  unfold getCommandIdsFromManifest.
  rewrite (getCommands_of_object readFile JSON_parse text props Hread Hparse).
  simpl. rewrite Hl. simpl. now rewrite own_keys_without_indices.
Qed.

(** X12: whatever JSON value other than [null] the [commands] property
    holds, [getCommandIdsFromManifest] resolves: with one id per property
    of an object, per element of an array, per character of a string, and
    with no id for a boolean or a number. *)
Theorem getCommandIds_of_any_commands_value
    (text : string) (props : list (string * Json)) (c : Json) :
  readFile "./oclif.manifest.json" "utf8" = Resolved text ->
  JSON_parse text = Normal (JObject props) ->
  lookup "commands" props = Some c ->
  c <> JNull ->
  exists ids,
    getCommandIdsFromManifest readFile JSON_parse = Resolved ids /\
    List.length ids
    = match c with
      | JNull | JBool _ | JNumber _ => 0
      | JString s => String.length s
      | JArray items => List.length items
      | JObject commands => List.length commands
      end.
Proof.
  intros Hread Hparse Hl Hnull.
  unfold getCommandIdsFromManifest.
  rewrite (getCommands_of_object readFile JSON_parse text props Hread Hparse).
  simpl. rewrite Hl.
  destruct c as [|b|n|s|items|commands]; simpl.
  - congruence.
  - now exists [].
  - now exists [].
  - eexists. split; [reflexivity | apply indices_length].
  - eexists. split; [reflexivity | apply indices_length].
  - eexists. split; [reflexivity|].
    rewrite (Permutation_length (own_keys_perm (map fst commands))).
    apply length_map.
Qed.

(** X13: [getCommandsFromManifest] resolves exactly when the file is read,
    its text parses, and the parsed value is not [null]. *)
Theorem getCommands_resolves_iff :
  (exists commands,
     getCommandsFromManifest readFile JSON_parse = Resolved commands) <->
  (exists text manifest,
     readFile "./oclif.manifest.json" "utf8" = Resolved text /\
     JSON_parse text = Normal manifest /\
     manifest <> JNull).
Proof.
  unfold getCommandsFromManifest. split.
  - intros [commands H].
    destruct (readFile "./oclif.manifest.json" "utf8") as [text|e|] eqn:Hread;
      simpl in H.
    + destruct (JSON_parse text) as [manifest|e] eqn:Hparse; simpl in H.
      * exists text, manifest.
        split; [reflexivity|]. split; [exact Hparse|].
        intros Hm. rewrite Hm in H. simpl in H. discriminate H.
      * destruct (has_code e "ENOENT"); discriminate H.
    + destruct (has_code e "ENOENT"); discriminate H.
    + discriminate H.
  - intros [text [manifest [Hread [Hparse Hnull]]]].
    rewrite Hread. simpl. rewrite Hparse. simpl.
    destruct manifest; simpl; try (eexists; reflexivity). congruence.
Qed.

(** X14: the error ["Oclif manifest not found."] comes out of
    [getCommandsFromManifest] only when reading or parsing raised an error
    with code [ENOENT], or raised that very error. *)
Theorem manifest_not_found_origin :
  getCommandsFromManifest readFile JSON_parse = Rejected manifest_not_found ->
  exists e,
    (readFile "./oclif.manifest.json" "utf8" = Rejected e \/
     exists text, readFile "./oclif.manifest.json" "utf8" = Resolved text /\
                  JSON_parse text = Throw e) /\
    (has_code e "ENOENT" = true \/ e = manifest_not_found).
Proof.
  unfold getCommandsFromManifest. intros H.
  destruct (readFile "./oclif.manifest.json" "utf8") as [text|e|] eqn:Hread;
    simpl in H.
  - destruct (JSON_parse text) as [manifest|e] eqn:Hparse; simpl in H.
    + destruct manifest; simpl in H; discriminate H.
    + exists e. split; [right; now exists text|].
      destruct (has_code e "ENOENT"); [now left|].
      right. now injection H.
  - exists e. split; [now left|].
    destruct (has_code e "ENOENT"); [now left|].
    right. now injection H.
  - discriminate H.
Qed.

End ManifestMore.

Lemma getCommandIds_read_and_parse_errors_witness :
  getCommandIdsFromManifest Samples.readFile_absent Samples.parse_sample
  = Rejected manifest_not_found.
Proof.
  apply (getCommandIds_read_and_parse_errors
           Samples.readFile_absent Samples.parse_sample Samples.enoent).
  left. reflexivity.
Defined.

Lemma getCommandIds_keeps_manifest_order_witness :
  getCommandIdsFromManifest (Samples.readFile_of "two-commands")
    Samples.parse_sample
  = Resolved ["env:add"; "logs"].
Proof.
  apply (getCommandIds_keeps_manifest_order
           (Samples.readFile_of "two-commands") Samples.parse_sample
           "two-commands"
           [("version", JString "1.0");
            ("commands", JObject [("env:add", JObject []);
                                  ("logs", JObject [])])]
           [("env:add", JObject []); ("logs", JObject [])]);
    reflexivity.
Defined.

Lemma getCommandIds_of_any_commands_value_witness :
  exists ids,
    getCommandIdsFromManifest (Samples.readFile_of "two-commands")
      Samples.parse_sample = Resolved ids /\
    List.length ids = 2.
Proof.
  apply (getCommandIds_of_any_commands_value
           (Samples.readFile_of "two-commands") Samples.parse_sample
           "two-commands"
           [("version", JString "1.0");
            ("commands", JObject [("env:add", JObject []);
                                  ("logs", JObject [])])]
           (JObject [("env:add", JObject []); ("logs", JObject [])]));
    try reflexivity.
  discriminate.
Defined.

Lemma manifest_not_found_origin_witness :
  exists e,
    (Samples.readFile_absent "./oclif.manifest.json" "utf8" = Rejected e \/
     exists text,
       Samples.readFile_absent "./oclif.manifest.json" "utf8"
       = Resolved text /\
       Samples.parse_sample text = Throw e) /\
    (has_code e "ENOENT" = true \/ e = manifest_not_found).
Proof.
  apply (manifest_not_found_origin
           Samples.readFile_absent Samples.parse_sample).
  reflexivity.
Defined.

Lemma null_manifest_is_a_type_error_witness :
  exists e,
    getCommandsFromManifest (Samples.readFile_of "null")
      LogReading.parse_with_null = Rejected e /\
    getCommandIdsFromManifest (Samples.readFile_of "null")
      LogReading.parse_with_null = Rejected e /\
    err_class e = TypeError /\
    e <> manifest_not_found /\ e <> commands_missing.
Proof.
  apply (null_manifest_is_a_type_error (Samples.readFile_of "null")
           LogReading.parse_with_null "null"); reflexivity.
Defined.

(** ** The [logs] command, continued *)

Import LogReading.

Section LogsMore.
Context {World DeviceLogStream : Type}.
Variable env : Collaborators World DeviceLogStream.

(** X15: on the cloud path a failed login check ends the command with
    the error of the check, whatever the tail flag; no request for logs
    is made. *)
Theorem action_not_logged_in
    (params : Params) (options : Options) (w w1 : World) (e : JsError) :
  let id := uuidOrDevice (normalizeUuidProp env params) in
  validateIPAddress env id = false ->
  validateDotLocalUrl env id = false ->
  checkLoggedIn env w = (Rejected e, w1) ->
  action env params options w = (Rejected e, w1, [CallCheckLoggedIn]).
Proof.
  intros id Hip Hlocal Hlogin.
  unfold action. fold id. rewrite Hip, Hlocal. simpl (false || false). cbv iota.
  unfold bind at 1. unfold perform at 1. now rewrite Hlogin.
Qed.

(** X16: on the cloud path, when the request for the logs itself fails
    ([subscribe] with the tail flag, [history] without), the command fails
    with that error unchanged and nothing is displayed. *)
Theorem action_log_request_fails
    (params : Params) (options : Options) (w w1 w2 : World) (e : JsError) :
  let id := uuidOrDevice (normalizeUuidProp env params) in
  validateIPAddress env id = false ->
  validateDotLocalUrl env id = false ->
  checkLoggedIn env w = (Resolved tt, w1) ->
  (if flag (tail options)
   then subscribe env id 100 w1 = (Rejected e, w2)
   else history env id w1 = (Rejected e, w2)) ->
  action env params options w
  = (Rejected e, w2,
     [CallCheckLoggedIn;
      if flag (tail options) then CallSubscribe id 100 else CallHistory id]).
Proof.
  intros id Hip Hlocal Hlogin Hreq.
  unfold action. fold id. rewrite Hip, Hlocal. simpl (false || false). cbv iota.
  unfold bind at 1. unfold perform at 1. rewrite Hlogin.
  destruct (flag (tail options)).
  - unfold bind at 1. unfold perform at 1. now rewrite Hreq.
  - unfold bind at 1. unfold perform at 1. now rewrite Hreq.
Qed.

(** X17: on the local path, once the device has answered the ping, an
    error of [getLogStream] reaches the caller unchanged (it is not turned
    into the cannot-access error), and when the stream is obtained the
    command ends as [displayDeviceLogs] ends, after exactly these four
    calls. *)
Theorem action_local_after_ping
    (params : Params) (options : Options) (w w1 : World) :
  let id := uuidOrDevice (normalizeUuidProp env params) in
  let msg := "Checking we can access device" in
  validateIPAddress env id = true \/ validateDotLocalUrl env id = true ->
  ping env id (logDebug env msg w) = (Resolved tt, w1) ->
  (forall e w2,
     getLogStream env id w1 = (Rejected e, w2) ->
     action env params options w
     = (Rejected e, w2,
        [CallLogDebug msg; CallPing id; CallGetLogStream id])) /\
  (forall logStream w2 out w3,
     getLogStream env id w1 = (Resolved logStream, w2) ->
     displayDeviceLogs env logStream (flag (system options))
       (servicesToDisplay options) w2 = (out, w3) ->
     action env params options w
     = (out, w3,
        [CallLogDebug msg; CallPing id; CallGetLogStream id;
         CallDisplayDeviceLogs logStream (flag (system options))
           (servicesToDisplay options)])).
Proof.
  intros id msg Hlocal Hping.
  assert (Hcond : validateIPAddress env id || validateDotLocalUrl env id
                  = true) by (apply orb_true_iff; exact Hlocal).
  unfold action. fold id. rewrite Hcond. cbv iota. fold msg.
  unfold bind, catch, perform, throw, debug. rewrite Hping.
  split.
  - intros e w2 Hstream. now rewrite Hstream.
  - intros logStream w2 out w3 Hstream Hshow. now rewrite Hstream, Hshow.
Qed.

Lemma forOf_stops (A : Type) (body : A -> M World DeviceLogStream unit)
    (before : list A) (failing : A) (rest : list A) :
  forall w w1 w2 c1 c2 e,
  forOf before body w = (Resolved tt, w1, c1) ->
  body failing w1 = (Rejected e, w2, c2) ->
  forOf (before ++ failing :: rest)%list body w
  = (Rejected e, w2, (c1 ++ c2)%list).
Proof.
  induction before as [|x before' IH]; intros w w1 w2 c1 c2 e Hbefore Hfail.
  - simpl in Hbefore. unfold ret in Hbefore.
    injection Hbefore as <- <-. simpl. unfold bind. now rewrite Hfail.
  - simpl in Hbefore |- *. unfold bind in Hbefore |- *.
    destruct (body x w) as [[[u|e0|] wx] cx]; try discriminate Hbefore.
    destruct (forOf before' body wx) as [[o wy] cy] eqn:Hrun.
    injection Hbefore as -> -> <-.
    rewrite (IH wx w1 w2 cy c2 e Hrun Hfail).
    now rewrite app_assoc.
Qed.

(** X18: without the tail flag, the first message whose display fails
    ends the command with that error; the messages after it in the history
    list cause no call at all. *)
Theorem action_history_stops_at_first_failure
    (params : Params) (options : Options) (w w1 w2 w3 w4 : World)
    (before : list LogMessage) (failing : LogMessage)
    (rest : list LogMessage) (e : JsError)
    (c1 c2 : list (Call DeviceLogStream)) :
  let id := uuidOrDevice (normalizeUuidProp env params) in
  validateIPAddress env id = false ->
  validateDotLocalUrl env id = false ->
  flag (tail options) = false ->
  checkLoggedIn env w = (Resolved tt, w1) ->
  history env id w1 = (Resolved (before ++ failing :: rest)%list, w2) ->
  forOf before (displayCloudLog env options) w2 = (Resolved tt, w3, c1) ->
  displayCloudLog env options failing w3 = (Rejected e, w4, c2) ->
  action env params options w
  = (Rejected e, w4,
     (CallCheckLoggedIn :: CallHistory id :: c1 ++ c2)%list).
Proof.
  intros id Hip Hlocal Htail Hlogin Hhist Hbefore Hfail.
  unfold action. fold id. rewrite Hip, Hlocal, Htail. simpl (false || false). cbv iota.
  unfold bind at 1. unfold perform at 1. rewrite Hlogin.
  unfold bind at 1. unfold perform at 1. rewrite Hhist.
  now rewrite (forOf_stops _ _ before failing rest w2 w3 w4 c1 c2 e
                 Hbefore Hfail).
Qed.

End LogsMore.

Lemma action_not_logged_in_witness :
  action logged_out_env (mkParams "23c73a1") LogSamples.tail_options 0
  = (Rejected logged_out, 0, [CallCheckLoggedIn]).
Proof.
  apply (action_not_logged_in logged_out_env (mkParams "23c73a1")
           LogSamples.tail_options 0 0 logged_out); reflexivity.
Defined.

Lemma action_log_request_fails_witness :
  action flaky_env (mkParams "23c73a1") LogSamples.tail_options 0
  = (Rejected LogSamples.broken, 0,
     [CallCheckLoggedIn; CallSubscribe "23c73a1" 100]).
Proof.
  apply (action_log_request_fails flaky_env (mkParams "23c73a1")
           LogSamples.tail_options 0 0 0 LogSamples.broken); reflexivity.
Defined.

Lemma action_local_after_ping_witness :
  action flaky_env (mkParams "23c73a1.local") LogSamples.no_options 0
  = (Rejected LogSamples.broken, 0,
     [CallLogDebug "Checking we can access device";
      CallPing "23c73a1.local"; CallGetLogStream "23c73a1.local"]).
Proof.
  destruct (action_local_after_ping flaky_env (mkParams "23c73a1.local")
              LogSamples.no_options 0 0 (or_intror eq_refl) eq_refl)
    as [Hstream _].
  exact (Hstream LogSamples.broken 0 eq_refl).
Defined.

Lemma action_history_stops_at_first_failure_witness :
  action flaky_env (mkParams "23c73a1") LogSamples.no_options 0
  = (Rejected LogSamples.broken, 2,
     [CallCheckLoggedIn; CallHistory "23c73a1";
      CallDisplayLogObject (mkLogObject None LogSamples.started) false None;
      CallServiceIdToName (Some 7%Z);
      CallDisplayLogObject (mkLogObject (Some "main") LogSamples.hello)
        false None;
      CallServiceIdToName (Some 9%Z)]).
Proof.
  apply (action_history_stops_at_first_failure flaky_env
           (mkParams "23c73a1") LogSamples.no_options 0 0 0 2 2
           [LogSamples.started; LogSamples.hello] LogSamples.orphan
           [LogSamples.killed] LogSamples.broken
           [CallDisplayLogObject (mkLogObject None LogSamples.started)
              false None;
            CallServiceIdToName (Some 7%Z);
            CallDisplayLogObject (mkLogObject (Some "main") LogSamples.hello)
              false None]
           [CallServiceIdToName (Some 9%Z)]); reflexivity.
Defined.

Section LogsInvariants.
Context {World DeviceLogStream : Type}.
Variable env : Collaborators World DeviceLogStream.

Lemma displayCloudLog_calls (options : Options) (l : LogMessage) (w : World) :
  Forall (display_step_call options)
    (snd (displayCloudLog env options l w)).
Proof.
  unfold displayCloudLog. destruct (isSystem l); simpl.
  - unfold invoke.
    destruct (displayLogObject env (mkLogObject None l)
                (flag (system options)) (servicesToDisplay options) w).
    simpl. repeat constructor.
  - unfold bind, perform, invoke.
    destruct (serviceIdToName env (serviceId l) w) as [[name|e|] w1]; simpl.
    + match goal with
      | |- context [displayLogObject env ?o ?s ?v w1] =>
          destruct (displayLogObject env o s v w1)
      end.
      simpl. repeat constructor.
    + repeat constructor.
    + repeat constructor.
Qed.

Lemma forOf_calls (options : Options) (msgs : list LogMessage) :
  forall w,
  Forall (display_step_call options)
    (snd (forOf msgs (displayCloudLog env options) w)).
Proof.
  induction msgs as [|l rest IH]; intros w; simpl; [constructor|].
  unfold bind.
  pose proof (displayCloudLog_calls options l w) as Hl.
  destruct (displayCloudLog env options l w) as [[[u|e|] w1] c1];
    simpl in Hl |- *; try exact Hl.
  pose proof (IH w1) as Hrest.
  destruct (forOf rest (displayCloudLog env options) w1) as [[o w2] c2].
  simpl in Hrest |- *. apply Forall_app. now split.
Qed.

Lemma emit_calls (options : Options) (events : LogStream) :
  forall p w,
  Forall (display_step_call options) (snd (emit env options events p w)).
Proof.
  induction events as [|ev rest IH]; intros p w; simpl; [constructor|].
  destruct ev as [l|e]; [|apply IH].
  unfold bind, detach.
  pose proof (displayCloudLog_calls options l w) as Hl.
  destruct (displayCloudLog env options l w) as [[o w1] c1]. simpl in Hl.
  pose proof (IH p w1) as Hrest.
  destruct (emit env options rest p w1) as [[o2 w2] c2].
  simpl in Hrest |- *. apply Forall_app. now split.
Qed.

Lemma emit_resolves (options : Options) (events : LogStream) :
  forall p w, exists q w1 calls,
    emit env options events p w = (Resolved q, w1, calls).
Proof.
  induction events as [|ev rest IH]; intros p w; simpl.
  - now exists p, w, [].
  - destruct ev as [l|e]; [|apply IH].
    unfold bind, detach.
    destruct (displayCloudLog env options l w) as [[o w1] c1].
    destruct (IH p w1) as [q [w2 [c2 ->]]]. now eexists _, _, _.
Qed.

(** X19: the calls of a cloud run follow one protocol: the login check
    comes first; if anything follows, it is exactly one request for logs,
    [subscribe] with count 100 under the tail flag and [history] without
    it, for the normalised identifier; every later call is a name lookup
    or a formatter call. *)
Theorem action_cloud_protocol
    (params : Params) (options : Options) (w : World) :
  let id := uuidOrDevice (normalizeUuidProp env params) in
  let calls := snd (action env params options w) in
  validateIPAddress env id = false ->
  validateDotLocalUrl env id = false ->
  calls = [CallCheckLoggedIn] \/
  exists rest,
    calls = CallCheckLoggedIn
            :: (if flag (tail options)
                then CallSubscribe id 100 else CallHistory id)
            :: rest /\
    Forall (display_step_call options) rest.
Proof.
  intros id calls Hip Hlocal. subst calls.
  unfold action. fold id. rewrite Hip, Hlocal.
  simpl (false || false). cbv iota.
  unfold bind, perform.
  destruct (checkLoggedIn env w) as [[u|e|] w1]; [|now left|now left].
  right. destruct (flag (tail options)).
  - destruct (subscribe env id 100 w1) as [[logStream|e|] w2];
      [|exists []; now split|exists []; now split].
    pose proof (emit_calls options logStream Unsettled w2) as Hc.
    destruct (emit env options logStream Unsettled w2)
      as [[[q|e|] w3] c3]; simpl in Hc |- *.
    + destruct q; simpl; exists (c3 ++ [])%list;
        (split; [reflexivity | now rewrite app_nil_r]).
    + now exists c3.
    + now exists c3.
  - destruct (history env id w1) as [[logMessages|e|] w2];
      [|exists []; now split|exists []; now split].
    pose proof (forOf_calls options logMessages w2) as Hc.
    destruct (forOf logMessages (displayCloudLog env options) w2)
      as [[o w3] c3]. simpl in Hc |- *. now exists c3.
Qed.

Lemma display_step_carries (options : Options) (c : Call DeviceLogStream) :
  display_step_call options c -> carries_filters options c.
Proof.
  destruct c; simpl; tauto.
Qed.

(** X20: on every path and whatever the collaborators answer, each call
    of [displayLogObject] or [displayDeviceLogs] gets the system filter
    [options.system || false] and the service filter [servicesToDisplay]
    of the invocation. *)
Theorem action_passes_filters
    (params : Params) (options : Options) (w : World) :
  Forall (carries_filters options) (snd (action env params options w)).
Proof.
  unfold action.
  set (id := uuidOrDevice (normalizeUuidProp env params)).
  destruct (validateIPAddress env id || validateDotLocalUrl env id).
  - unfold bind, catch, perform, throw, debug.
    destruct (ping env id (logDebug env "Checking we can access device" w))
      as [[u|e|] w1]; simpl; try (repeat constructor).
    destruct (getLogStream env id w1) as [[ls|e|] w2]; simpl;
      try (repeat constructor).
    destruct (displayDeviceLogs env ls (flag (system options))
                (servicesToDisplay options) w2) as [o w3].
    simpl. repeat constructor.
  - unfold bind, perform.
    destruct (checkLoggedIn env w) as [[u|e|] w1]; simpl;
      try (repeat constructor).
    destruct (flag (tail options)).
    + destruct (subscribe env id 100 w1) as [[logStream|e|] w2]; simpl;
        try (repeat constructor).
      pose proof (emit_calls options logStream Unsettled w2) as Hc.
      destruct (emit env options logStream Unsettled w2)
        as [[[q|e|] w3] c3]; simpl in Hc |- *; [destruct q; simpl| |];
        repeat (apply Forall_cons; [exact I|]); rewrite ?app_nil_r;
        (eapply Forall_impl; [apply display_step_carries | exact Hc]).
    + destruct (history env id w1) as [[logMessages|e|] w2]; simpl;
        try (repeat constructor).
      pose proof (forOf_calls options logMessages w2) as Hc.
      destruct (forOf logMessages (displayCloudLog env options) w2)
        as [[o w3] c3]. simpl in Hc |- *.
      repeat (apply Forall_cons; [exact I|]).
      eapply Forall_impl; [apply display_step_carries | exact Hc].
Qed.

Lemma emit_first_error (options : Options) (events : LogStream) :
  forall p w, exists w1 calls,
    emit env options events p w
    = (Resolved (match p with
                 | Unsettled =>
                     match first_error events with
                     | Some e => Failed e
                     | None => Unsettled
                     end
                 | _ => p
                 end), w1, calls).
Proof.
  induction events as [|ev rest IH]; intros p w; simpl.
  - exists w, []. now destruct p.
  - destruct ev as [l|e].
    + unfold bind, detach.
      destruct (displayCloudLog env options l w) as [[o w1] c1].
      destruct (IH p w1) as [w2 [c2 ->]]. now eexists _, _.
    + destruct (IH (reject e p) w) as [w2 [c2 ->]].
      exists w2, c2. now destruct p.
Qed.

(** X21: under the tail flag, once subscribed, the command is pending as
    long as the stream has emitted no ['error'] event, and it fails with
    the first error the stream emits; later errors do not change the
    outcome. *)
Theorem action_tail_fails_with_first_error
    (params : Params) (options : Options) (w w1 w2 : World)
    (logStream : LogStream) :
  let id := uuidOrDevice (normalizeUuidProp env params) in
  validateIPAddress env id = false ->
  validateDotLocalUrl env id = false ->
  flag (tail options) = true ->
  checkLoggedIn env w = (Resolved tt, w1) ->
  subscribe env id 100 w1 = (Resolved logStream, w2) ->
  fst (fst (action env params options w))
  = match first_error logStream with
    | Some e => Rejected e
    | None => Pending
    end.
Proof.
  intros id Hip Hlocal Htail Hlogin Hsub.
  unfold action. fold id. rewrite Hip, Hlocal, Htail.
  simpl (false || false). cbv iota.
  unfold bind, perform. rewrite Hlogin, Hsub.
  destruct (emit_first_error options logStream Unsettled w2)
    as [w3 [c3 ->]].
  now destruct (first_error logStream).
Qed.

Lemma resolutions_app (a b : list (Call DeviceLogStream)) :
  resolutions (a ++ b) = (resolutions a ++ resolutions b)%list.
Proof.
  unfold resolutions. apply flat_map_app.
Qed.

Lemma displayCloudLog_resolutions
    (options : Options) (l : LogMessage) (w : World) :
  resolutions (snd (displayCloudLog env options l w))
  = if isSystem l then [] else [serviceId l].
Proof.
  unfold displayCloudLog. destruct (isSystem l); simpl.
  - unfold invoke.
    now destruct (displayLogObject env (mkLogObject None l)
                    (flag (system options)) (servicesToDisplay options) w).
  - unfold bind, perform, invoke.
    destruct (serviceIdToName env (serviceId l) w) as [[name|e|] w1];
      try reflexivity.
    match goal with
    | |- context [displayLogObject env ?o ?s ?v w1] =>
        now destruct (displayLogObject env o s v w1)
    end.
Qed.

Lemma emit_resolutions (options : Options) (events : LogStream) :
  forall p w,
  resolutions (snd (emit env options events p w))
  = map serviceId (filter (fun l => negb (isSystem l)) (lines events)).
Proof.
  induction events as [|ev rest IH]; intros p w; [reflexivity|].
  destruct ev as [l|e]; [|apply IH].
  cbn [emit]. unfold bind, detach.
  pose proof (displayCloudLog_resolutions options l w) as Hl.
  destruct (displayCloudLog env options l w) as [[o w1] c1]. simpl in Hl.
  pose proof (IH p w1) as Hrest.
  destruct (emit env options rest p w1) as [[o2 w2] c2].
  cbn [snd] in Hrest |- *. rewrite resolutions_app, Hl, Hrest.
  cbn [lines flat_map app filter]. fold (lines rest).
  now destruct (isSystem l).
Qed.

(** X22: under the tail flag, once subscribed, a name lookup is started
    for every ['line'] event that is not a system entry, with that entry's
    service id, in the order of the events, also for events after an
    ['error'] event; no lookup is started for a system entry. *)
Theorem action_tail_lookups
    (params : Params) (options : Options) (w w1 w2 : World)
    (logStream : LogStream) :
  let id := uuidOrDevice (normalizeUuidProp env params) in
  validateIPAddress env id = false ->
  validateDotLocalUrl env id = false ->
  flag (tail options) = true ->
  checkLoggedIn env w = (Resolved tt, w1) ->
  subscribe env id 100 w1 = (Resolved logStream, w2) ->
  resolutions (snd (action env params options w))
  = map serviceId (filter (fun l => negb (isSystem l)) (lines logStream)).
Proof.
  intros id Hip Hlocal Htail Hlogin Hsub.
  unfold action. fold id. rewrite Hip, Hlocal, Htail.
  simpl (false || false). cbv iota.
  unfold bind, perform. rewrite Hlogin, Hsub.
  pose proof (emit_resolutions options logStream Unsettled w2) as Hr.
  destruct (emit_resolves options logStream Unsettled w2)
    as [q [w3 [c3 Hrun]]].
  rewrite Hrun in Hr |- *. cbn [snd] in Hr.
  destruct (await (DeviceLogStream := DeviceLogStream) q w3)
    as [[o w4] c4] eqn:Hawait.
  assert (c4 = []) by (destruct q; simpl in Hawait; now injection Hawait).
  subst c4. cbn [snd]. rewrite app_nil_r. exact Hr.
Qed.

End LogsInvariants.

Section LogsOptions.
Context {World DeviceLogStream : Type}.
Variable env : Collaborators World DeviceLogStream.
Variables o1 o2 : Options.
Hypothesis same_system : flag (system o1) = flag (system o2).
Hypothesis same_services : servicesToDisplay o1 = servicesToDisplay o2.

Lemma displayCloudLog_same (l : LogMessage) (w : World) :
  displayCloudLog env o1 l w = displayCloudLog env o2 l w.
Proof.
  unfold displayCloudLog. now rewrite same_system, same_services.
Qed.

Lemma forOf_same (msgs : list LogMessage) :
  forall w,
  forOf msgs (displayCloudLog env o1) w
  = forOf msgs (displayCloudLog env o2) w.
Proof.
  induction msgs as [|l rest IH]; intros w; [reflexivity|].
  simpl. unfold bind. rewrite displayCloudLog_same.
  destruct (displayCloudLog env o2 l w) as [[[u|e|] w1] c1];
    try reflexivity.
  now rewrite IH.
Qed.

Lemma emit_same (events : LogStream) :
  forall p w, emit env o1 events p w = emit env o2 events p w.
Proof.
  induction events as [|ev rest IH]; intros p w; [reflexivity|].
  destruct ev as [l|e]; [|apply IH].
  simpl. unfold bind, detach. rewrite displayCloudLog_same.
  destruct (displayCloudLog env o2 l w) as [[o w1] c1].
  now rewrite IH.
Qed.

End LogsOptions.

(** X23: the command reads its options only through the truthiness of
    [tail], the truthiness of [system] and the list [servicesToDisplay]:
    two option records that agree on these three give the same run.  So
    an absent flag behaves as [false], and a single [--service] string as
    the one-element list. *)
Theorem action_reads_options_through_filters
    {World DeviceLogStream : Type} (env : Collaborators World DeviceLogStream)
    (o1 o2 : Options) (params : Params) (w : World) :
  flag (tail o1) = flag (tail o2) ->
  flag (system o1) = flag (system o2) ->
  servicesToDisplay o1 = servicesToDisplay o2 ->
  action env params o1 w = action env params o2 w.
Proof.
  intros same_tail same_system same_services. unfold action.
  rewrite same_tail, same_system, same_services.
  destruct (validateIPAddress env (uuidOrDevice (normalizeUuidProp env params))
            || validateDotLocalUrl env
                 (uuidOrDevice (normalizeUuidProp env params)));
    [reflexivity|].
  unfold bind, perform.
  destruct (checkLoggedIn env w) as [[u|e|] w1]; try reflexivity.
  destruct (flag (tail o2)).
  - destruct (subscribe env _ 100 w1) as [[logStream|e|] w2];
      try reflexivity.
    now rewrite (emit_same env o1 o2 same_system same_services).
  - destruct (history env _ w1) as [[logMessages|e|] w2]; try reflexivity.
    now rewrite (forOf_same env o1 o2 same_system same_services).
Qed.


Lemma action_cloud_protocol_witness :
  snd (action LogSamples.sample_env (mkParams "23c73a1")
         LogSamples.tail_options 0)
  = [CallCheckLoggedIn] \/
  exists rest,
    snd (action LogSamples.sample_env (mkParams "23c73a1")
           LogSamples.tail_options 0)
    = CallCheckLoggedIn :: CallSubscribe "23c73a1" 100 :: rest /\
    Forall (display_step_call LogSamples.tail_options) rest.
Proof.
  apply (action_cloud_protocol LogSamples.sample_env (mkParams "23c73a1")
           LogSamples.tail_options 0); reflexivity.
Defined.

Lemma action_tail_fails_with_first_error_witness :
  fst (fst (action LogSamples.sample_env (mkParams "23c73a1")
              LogSamples.tail_options 0))
  = Rejected LogSamples.broken.
Proof.
  apply (action_tail_fails_with_first_error LogSamples.sample_env
           (mkParams "23c73a1") LogSamples.tail_options 0 0 0
           [Line LogSamples.started; Line LogSamples.hello;
            StreamError LogSamples.broken; Line LogSamples.orphan]);
    reflexivity.
Defined.

Lemma action_tail_lookups_witness :
  resolutions (snd (action LogSamples.sample_env (mkParams "23c73a1")
                      LogSamples.tail_options 0))
  = [Some 7%Z; Some 9%Z].
Proof.
  apply (action_tail_lookups LogSamples.sample_env
           (mkParams "23c73a1") LogSamples.tail_options 0 0 0
           [Line LogSamples.started; Line LogSamples.hello;
            StreamError LogSamples.broken; Line LogSamples.orphan]);
    reflexivity.
Defined.

Lemma action_reads_options_through_filters_witness :
  action LogSamples.sample_env (mkParams "23c73a1")
    (mkOptions None (Some (OneService "main")) (Some false)) 0
  = action LogSamples.sample_env (mkParams "23c73a1")
      (mkOptions (Some false) (Some (ServiceList ["main"])) None) 0.
Proof.
  apply (action_reads_options_through_filters LogSamples.sample_env
           (mkOptions None (Some (OneService "main")) (Some false))
           (mkOptions (Some false) (Some (ServiceList ["main"])) None));
    reflexivity.
Defined.
